(** * Mezzanine page tree and moderation workflow

    A shallow embedding of [mezzanine/pages/models.py]: the [Page] model
    (titles, slugs, parent pointers) and the [Moderated] mix-in (status
    display, notification of publishers).

    The database is an explicit store that every method threads through;
    an in-memory model instance is a record of field values.  Loops that
    follow parent pointers take fuel, since nothing in the code bounds
    them when the stored pointers are cyclic. *)

From Stdlib Require Import ZArith String Ascii List Lia Bool.
From stdpp Require Import base option list gmap strings pretty.

Local Open Scope string_scope.

(** ** Python string operations used by the models *)

Module PyStr.

(** [s.startswith(pre)] *)
Definition startswith (s pre : string) : bool := String.prefix pre s.

(** [s[n:]] *)
Fixpoint slice_from (n : nat) (s : string) : string :=
  match n, s with
  | O, _ => s
  | S _, EmptyString => EmptyString
  | S n', String _ s' => slice_from n' s'
  end.

(** [s.replace(old, new, 1)]: only the leftmost occurrence is replaced. *)
Fixpoint replace_first (old new s : string) : string :=
  if String.prefix old s then new +:+ slice_from (String.length old) s
  else match s with
       | EmptyString => EmptyString
       | String c s' => String c (replace_first old new s')
       end.

Fixpoint lstrip (c : ascii) (s : string) : string :=
  match s with
  | EmptyString => EmptyString
  | String a s' => if Ascii.eqb a c then lstrip c s' else s
  end.

Fixpoint rstrip (c : ascii) (s : string) : string :=
  match s with
  | EmptyString => EmptyString
  | String a s' =>
      match rstrip c s' with
      | EmptyString => if Ascii.eqb a c then EmptyString else String a EmptyString
      | r => String a r
      end
  end.

(** [s.strip(c)] for a one-character argument. *)
Definition strip (c : ascii) (s : string) : string := rstrip c (lstrip c s).

Definition lower_ascii (a : ascii) : ascii :=
  let n := nat_of_ascii a in
  if (65 <=? n)%nat && (n <=? 90)%nat then ascii_of_nat (n + 32) else a.

(** [s.lower()] on the ASCII names of model classes. *)
Fixpoint lower (s : string) : string :=
  match s with
  | EmptyString => EmptyString
  | String a s' => String (lower_ascii a) (lower s')
  end.

(** [sep.join(parts)] *)
Definition join (sep : string) (parts : list string) : string :=
  String.concat sep parts.

(** Truth value of a string: empty strings are false. *)
Definition truthy (s : string) : bool :=
  match s with EmptyString => false | _ => true end.

(** [s.replace(a, b)] for one-character [a] and [b]: every occurrence is
    replaced. *)
Fixpoint replace_char (a b : ascii) (s : string) : string :=
  match s with
  | EmptyString => EmptyString
  | String c s' =>
      String (if Ascii.eqb c a then b else c) (replace_char a b s')
  end.

(** [c in s] for a character. *)
Fixpoint has_char (c : ascii) (s : string) : bool :=
  match s with
  | EmptyString => false
  | String a s' => Ascii.eqb a c || has_char c s'
  end.

End PyStr.

(** ** The page store and model instances *)

Module Pages.
Import PyStr.

(** Exceptions the methods can raise. [AttributeError] is the one
    [set_parent] raises on a cycle; [DoesNotExist] is what following a
    foreign key to a missing row raises; [IndexError] is [pages[0]] on an
    empty list. *)
Inductive exn := AttributeError | DoesNotExist | IndexError.

(** A model instance: the field values held in memory.  Primary keys are
    the database's automatic keys, which start at 1, so [positive]; on such
    keys the test [not self.parent_id] is the test [self.parent_id is None].
    [object_name] is [self._meta.object_name], the name of the instance's
    class.  A slug that is unset is the empty string. *)
Record Page := mkPage {
  pk : option positive;
  object_name : string;
  title : string;
  slug : string;
  parent_id : option positive;
  titles : option string;
  content_model : option string
}.

Definition with_pk (v : option positive) (p : Page) : Page :=
  mkPage v (object_name p) (title p) (slug p) (parent_id p) (titles p)
    (content_model p).
Definition with_slug (v : string) (p : Page) : Page :=
  mkPage (pk p) (object_name p) (title p) v (parent_id p) (titles p)
    (content_model p).
Definition with_parent_id (v : option positive) (p : Page) : Page :=
  mkPage (pk p) (object_name p) (title p) (slug p) v (titles p)
    (content_model p).
Definition with_titles (v : option string) (p : Page) : Page :=
  mkPage (pk p) (object_name p) (title p) (slug p) (parent_id p) v
    (content_model p).
Definition with_content_model (v : option string) (p : Page) : Page :=
  mkPage (pk p) (object_name p) (title p) (slug p) (parent_id p) (titles p) v.

#[export] Instance Page_eq_dec : EqDecision Page.
Proof. solve_decision. Defined.

(** The page table, and the log of primary keys written by [save], oldest
    first. *)
Record DB := mkDB {
  rows : gmap positive Page;
  writes : list positive
}.

(** Loading the row stored under key [i]. *)
Definition fetch (db : DB) (i : positive) : option Page :=
  with_pk (Some i) <$> rows db !! i.

(** Results of code that only reads the store. *)
Inductive res (A : Type) :=
  | Val (a : A)
  | Exc (e : exn)
  | NoFuel.
Arguments Val {A} a.
Arguments Exc {A} e.
Arguments NoFuel {A}.

(** Results of methods: the value returned or the exception raised,
    together with the mutable state [S] (the instance and the store) as
    it is at that point. *)
Inductive outcome (S A : Type) :=
  | Returned (a : A) (s : S)
  | Raised (e : exn) (s : S)
  | OutOfFuel.
Arguments Returned {S A} a s.
Arguments Raised {S A} e s.
Arguments OutOfFuel {S A}.

(** [pg.parent] on an instance with no related object assigned: the row
    named by [parent_id], if any. *)
Definition get_parent (db : DB) (pg : Page) : res (option Page) :=
  match parent_id pg with
  | None => Val None
  | Some i =>
      match fetch db i with
      | Some par => Val (Some par)
      | None => Exc DoesNotExist
      end
  end.

(** Modelled from the spec: the inherited [save] of the framework's model
    classes ([super(Page, self).save]), which is not in src; the spec calls
    it framework-provided persistence that stores records with parent
    pointers and slugs.  It writes the instance's row under its primary
    key, taking an unused key the first time. *)
Definition base_save (self : Page) (db : DB) : Page * DB :=
  let i := default (fresh (dom (rows db))) (pk self) in
  let self := with_pk (Some i) self in
  (self, mkDB (<[i := self]> (rows db)) (writes db ++ [i])).

(** The [while parent is not None] loop of [save]: each ancestor's title
    goes to the front of [titles]. *)
Fixpoint save_titles (fuel : nat) (db : DB) (parent : option Page)
    (titles : list string) : res (list string) :=
  match parent with
  | None => Val titles
  | Some par =>
      match fuel with
      | O => NoFuel
      | S fuel' =>
          match get_parent db par with
          | Val next => save_titles fuel' db next (title par :: titles)
          | Exc e => Exc e
          | NoFuel => NoFuel
          end
      end
  end.

(** [Page.save], given what [self.parent] evaluates to: the related-object
    descriptor returns the object last assigned to [parent], and otherwise
    loads the row named by [parent_id]. *)
Definition save_with (parent : res (option Page)) (fuel : nat) (self : Page)
    (db : DB) : outcome (Page * DB) unit :=
  let self :=
    match pk self with
    | None => with_content_model (Some (lower (object_name self))) self
    | Some _ => self
    end in
  match parent with
  | Exc e => Raised e (self, db)
  | NoFuel => OutOfFuel
  | Val parent =>
      match save_titles fuel db parent [title self] with
      | Val ts =>
          Returned tt (base_save (with_titles (Some (join " / " ts)) self) db)
      | Exc e => Raised e (self, db)
      | NoFuel => OutOfFuel
      end
  end.

Definition save (fuel : nat) (self : Page) (db : DB)
    : outcome (Page * DB) unit :=
  save_with (get_parent db self) fuel self db.

(** [Page.objects.filter(slug__startswith=s)], evaluated once when the
    [for] loop starts.  The rows come back in the table's ordering; each
    iteration of the loops below writes only the row it was handed, so the
    order is immaterial and the map's own order is used. *)
Definition objects_filter_slug_startswith (db : DB) (s : string)
    : list Page :=
  (λ ir, with_pk (Some ir.1) ir.2) <$>
    filter (λ ir : positive * Page, startswith (slug ir.2) s = true)
      (map_to_list (rows db)).

(** The scan of [set_parent] for a cycle. *)
Fixpoint check_cycle (fuel : nat) (db : DB) (self_pk : option positive)
    (parent : option Page) : res unit :=
  match parent with
  | None => Val tt
  | Some par =>
      if bool_decide (pk par = self_pk) then Exc AttributeError
      else
        match fuel with
        | O => NoFuel
        | S fuel' =>
            match get_parent db par with
            | Val next => check_cycle fuel' db self_pk next
            | Exc e => Exc e
            | NoFuel => NoFuel
            end
        end
  end.

(** An instance that may carry the [_ascendants] attribute. *)
Record PageObj := mkObj {
  page_of :> Page;
  ascendants_attr : option (list Page)
}.

(** The [while child.parent_id is not None] loop of [get_ascendants],
    appending to the list held in [self._ascendants]. *)
Fixpoint ascend (fuel : nat) (db : DB) (child : Page) (acc : list Page)
    : outcome (list Page) unit :=
  match parent_id child with
  | None => Returned tt acc
  | Some i =>
      match fuel with
      | O => OutOfFuel
      | S fuel' =>
          match fetch db i with
          | Some par => ascend fuel' db par (acc ++ [par])
          | None => Raised DoesNotExist acc
          end
      end
  end.

Section Framework.

(** What the methods take from the framework and from modules of the
    project that are not in src. *)

(** [mezzanine.utils.urls.slugify] *)
Variable slugify : string -> string.

(** URL configuration: [reverse("page", kwargs={"slug": s})], the view
    that [resolve] finds for a URL, and [mezzanine.pages.views.page]. *)
Context {View : Type} `{EqDecision View}.
Variable reverse_page : string -> string.
Variable resolve : string -> View.
Variable page_view : View.

(** [Page.objects.with_ascendants_for_slug(slug, for_user=u)] of
    [mezzanine.pages.managers]. *)
Variable with_ascendants_for_slug :
  DB -> string -> option positive -> list PageObj.

Definition overridden (self : Page) : bool :=
  bool_decide (resolve (reverse_page (slug self)) ≠ page_view).

Definition get_slug (db : DB) (self : Page) : res string :=
  let slug_ := slugify (title self) in
  match get_parent db self with
  | Val (Some parent) => Val (slug parent +:+ "/" +:+ slug_)
  | Val None => Val slug_
  | Exc e => Exc e
  | NoFuel => NoFuel
  end.

(** The body of the [for] loop of [set_slug] over the pages the query
    returned. *)
Fixpoint set_slug_loop (fuel : nat) (self : Page) (new_slug : string)
    (pages : list Page) (db : DB) : outcome (Page * DB) unit :=
  match pages with
  | [] => Returned tt (self, db)
  | page :: rest =>
      if overridden page then set_slug_loop fuel self new_slug rest db
      else
        let page :=
          with_slug
            (new_slug +:+ slice_from (String.length (slug self)) (slug page))
            page in
        match save fuel page db with
        | Returned _ (_, db') => set_slug_loop fuel self new_slug rest db'
        | Raised e (_, db') => Raised e (self, db')
        | OutOfFuel => OutOfFuel
        end
  end.

Definition set_slug (fuel : nat) (new_slug : string) (self : Page) (db : DB)
    : outcome (Page * DB) unit :=
  match
    set_slug_loop fuel self new_slug
      (objects_filter_slug_startswith db (slug self)) db
  with
  | Returned _ (self, db') => Returned tt (with_slug new_slug self, db')
  | Raised e s => Raised e s
  | OutOfFuel => OutOfFuel
  end.

Definition set_parent (fuel : nat) (new_parent : option Page) (self : Page)
    (db : DB) : outcome (Page * DB) unit :=
  let self_slug := slug self in
  match get_parent db self with
  | Exc e => Raised e (self, db)
  | NoFuel => OutOfFuel
  | Val old_parent =>
      let old_parent_slug := from_option slug "" old_parent in
      let new_parent_slug := from_option slug "" new_parent in
      match check_cycle fuel db (pk self) new_parent with
      | Exc e => Raised e (self, db)
      | NoFuel => OutOfFuel
      | Val _ =>
          let self := with_parent_id (new_parent ≫= pk) self in
          match save_with (Val new_parent) fuel self db with
          | Returned _ (self, db) =>
              if truthy self_slug then
                if negb (truthy old_parent_slug) then
                  set_slug fuel (join "/" [new_parent_slug; slug self]) self db
                else if startswith (slug self) old_parent_slug then
                  set_slug fuel
                    (strip "/"
                       (replace_first old_parent_slug new_parent_slug
                          (slug self)))
                    self db
                else Returned tt (self, db)
              else Returned tt (self, db)
          | Raised e s => Raised e s
          | OutOfFuel => OutOfFuel
          end
      end
  end.

(** [Page.get_ascendants].  [cached] is the value of [self._ascendants]
    once the [hasattr] block has run. *)
Definition get_ascendants (fuel : nat) (for_user : option positive)
    (self : PageObj) (db : DB) : outcome PageObj (list Page) :=
  match parent_id self with
  | None => Returned [] self
  | Some _ =>
      let cached : exn + list Page :=
        match ascendants_attr self with
        | Some l => inr l
        | None =>
            if truthy (slug self) then
              match with_ascendants_for_slug db (slug self) for_user with
              | [] => inl IndexError
              | first :: _ =>
                  match ascendants_attr first with
                  | Some l => inr l
                  | None => inl AttributeError
                  end
              end
            else inr []
        end in
      match cached with
      | inl e => Raised e self
      | inr [] =>
          match ascend fuel db self [] with
          | Returned _ l => Returned l (mkObj self (Some l))
          | Raised e l => Raised e (mkObj self (Some l))
          | OutOfFuel => OutOfFuel
          end
      | inr l => Returned l (mkObj self (Some l))
      end
  end.

End Framework.

(** *** Parent pointers: paths, forests and ancestries *)

(** The parent pointer of every stored page. *)
Definition parents (db : DB) : gmap positive (option positive) :=
  parent_id <$> rows db.

(** [Path m o ks]: following the pointers of [m] from [o] visits the keys
    [ks], in that order, and then reaches a page with no parent. *)
Inductive Path (m : gmap positive (option positive))
    : option positive -> list positive -> Prop :=
  | Path_root : Path m None []
  | Path_step i o ks :
      m !! i = Some o -> Path m o ks -> Path m (Some i) (i :: ks).

(** The stored pointers form an acyclic forest: from every stored page the
    pointers lead, through stored pages only, to a root. *)
Definition Forest (m : gmap positive (option positive)) : Prop :=
  ∀ i o, m !! i = Some o -> ∃ ks, Path m o ks.

Definition forest (db : DB) : Prop := Forest (parents db).

(** [Ancestry db parent l]: the objects the loops of the models visit
    when they start at [parent] and follow [.parent] through the store. *)
Inductive Ancestry (db : DB) : option Page -> list Page -> Prop :=
  | Ancestry_none : Ancestry db None []
  | Ancestry_some par next l :
      get_parent db par = Val next -> Ancestry db next l ->
      Ancestry db (Some par) (par :: l).

(** A bounded search for paths, to check [forest] on a given store. *)
Fixpoint path_of (fuel : nat) (m : gmap positive (option positive))
    (o : option positive) : option (list positive) :=
  match o with
  | None => Some []
  | Some i =>
      match fuel with
      | O => None
      | S fuel' =>
          match m !! i with
          | Some o' => cons i <$> path_of fuel' m o'
          | None => None
          end
      end
  end.

Definition forestb (db : DB) : bool :=
  bool_decide
    (map_Forall (λ _ o, is_Some (path_of (size (rows db)) (parents db) o))
       (parents db)).

(** A candidate parent that is a page of the store, holding the field
    values of its row, or no page. *)
Definition attached (db : DB) (q : option Page) : Prop :=
  match q with
  | None => True
  | Some q => ∃ i, pk q = Some i ∧ fetch db i = Some q
  end.

Definition attachedb (db : DB) (q : option Page) : bool :=
  match q with
  | None => true
  | Some q =>
      match pk q with
      | Some i =>
          match rows db !! i with
          | Some r => bool_decide (with_pk (Some i) r = q)
          | None => false
          end
      | None => false
      end
  end.

(** *** Notions used to state what the methods do *)

(** The instance as [save] has it before the titles are built: the
    content model is set when the page has never been saved. *)
Definition first_save_fields (self : Page) : Page :=
  match pk self with
  | None => with_content_model (Some (lower (object_name self))) self
  | Some _ => self
  end.

(** The page an iteration of [set_slug] saves. *)
Definition renamed (new_slug old : string) (page : Page) : Page :=
  with_slug (new_slug +:+ slice_from (String.length old) (slug page)) page.

(** The keys of the pages of a query result that a predicate on pages
    skips. *)
Definition keys_not (skip : Page -> bool) (pages : list Page)
    : list positive :=
  omap pk (filter (λ page, skip page = false) pages).

(** What happened to the state, whether the method returned or raised. *)
Definition after {S A : Type} (o : outcome S A) (P : S -> Prop) : Prop :=
  match o with
  | Returned _ s | Raised _ s => P s
  | OutOfFuel => True
  end.

(** The page's own parent pointer is null or names a stored row, so that
    [self.parent] can be loaded. *)
Definition parent_stored (db : DB) (self : Page) : Prop :=
  match parent_id self with
  | None => True
  | Some i => is_Some (rows db !! i)
  end.

(** What a completed [set_parent] has done: the instance points at the new
    parent and has a key, the stored pointer under that key is the new
    parent and no other pointer changed, and the page was saved. *)
Definition moved (q : option Page) (self : Page) (db : DB)
    (self' : Page) (db' : DB) : Prop :=
  parent_id self' = q ≫= pk ∧
  ∃ key ws,
    pk self' = Some key ∧ (∀ j, pk self = Some j -> key = j) ∧
    parents db' = <[key := q ≫= pk]> (parents db) ∧
    writes db' = (writes db ++ key :: ws)%list.

(** What the comments of [get_ascendants] expect of the single query of
    [with_ascendants_for_slug] for a page whose ancestors are [l]: it
    returns at least one page, and the first one carries an [_ascendants]
    list that is either empty (the query could not find the parents) or
    the ancestors themselves. *)
Definition single_query_ok
    (with_ascendants_for_slug : DB -> string -> option positive -> list PageObj)
    (db : DB) (self : Page) (for_user : option positive) (l : list Page)
    : Prop :=
  ∃ first rest,
    with_ascendants_for_slug db (slug self) for_user = first :: rest ∧
    (ascendants_attr first = Some [] ∨ ascendants_attr first = Some l).

(** *** URLs, permissions and menus *)

Section Urls.

(** [reverse("home")] and [reverse("page", kwargs={"slug": s})] *)
Variable reverse_home : string.
Variable reverse_page : string -> string.

Definition get_absolute_url (self : Page) : string :=
  let slug_ := slug self in
  if bool_decide (content_model self = Some "link") then
    if negb (startswith (lower slug_) "http")
    then "/" +:+ lstrip "/" (slug self)
    else slug_
  else if bool_decide (slug_ = "/") then reverse_home
  else reverse_page slug_.

End Urls.

(** [Page.can_add], [can_change] and [can_delete]; the request is not
    looked at. *)
Definition can_add (self : Page) : bool := negb (bool_decide (slug self = "/")).
Definition can_change (self : Page) : bool := true.
Definition can_delete (self : Page) : bool := true.

(** The template context [set_helpers] reads: the page under
    ["_current_page"] (possibly [None]), the [path_info] of the request
    under ["request"] when that key is there, and the dictionary under
    ["_parent_page_ids"], from page ids to parent ids. *)
Record Context := mkContext {
  current_page : option Page;
  request_path_info : option string;
  parent_page_ids : gmap positive (option positive)
}.

(** The attributes [set_helpers] assigns, but for the
    [is_current_or_ascendant] closure, which is [is_current_or_ascendant]
    below. *)
Record Helpers := mkHelpers {
  is_current_child : bool;
  is_child : bool;
  is_current_sibling : bool;
  is_current : bool;
  is_primary : bool;
  html_id : string;
  branch_level : Z
}.

(** The inner function [is_c_or_a] of [set_helpers]; fuel bounds the depth
    of the recursion.  [dict.get] answers [None] for a missing key, and a
    parent id of [None] ends the [or] with a false value. *)
Fixpoint is_c_or_a (fuel : nat) (ids : gmap positive (option positive))
    (self_id : option positive) (page_id : option positive) : option bool :=
  let parent_id := page_id ≫= (λ i, mjoin (ids !! i)) in
  if bool_decide (self_id = page_id) then Some true
  else
    match parent_id with
    | None => Some false
    | Some p =>
        match fuel with
        | O => None
        | S fuel' => is_c_or_a fuel' ids self_id (Some p)
        end
    end.

Section Helpers.

(** [mezzanine.utils.urls.path_to_slug] *)
Variable path_to_slug : string -> string.

Definition set_helpers (self : Page) (context : Context) : Helpers :=
  let current_page_id := current_page context ≫= pk in
  let current_parent_id := current_page context ≫= parent_id in
  let is_current_child := bool_decide (parent_id self = current_page_id) in
  mkHelpers
    is_current_child
    is_current_child
    (bool_decide (parent_id self = current_parent_id))
    match request_path_info context with
    | None => false
    | Some path_info => bool_decide (slug self = path_to_slug path_info)
    end
    (bool_decide (parent_id self = None))
    (replace_char "/" "-" (slug self))
    0.

End Helpers.

(** The closure [self.is_current_or_ascendant], called on the context it
    was made from. *)
Definition is_current_or_ascendant (fuel : nat) (self : Page)
    (context : Context) : option bool :=
  is_c_or_a fuel (parent_page_ids context) (pk self)
    (current_page context ≫= pk).

(** The loop of [in_menu_template] over [settings.PAGE_MENU_TEMPLATES],
    whose entries are an integer id, a label and a template name. *)
Fixpoint in_menu_loop (menus : list (Z * string * string))
    (in_menus : list string) (template_name : string) : bool :=
  match menus with
  | [] => true
  | (i, _, t) :: rest =>
      if negb (bool_decide (pretty i ∈ in_menus))
         && bool_decide (t = template_name)
      then false
      else in_menu_loop rest in_menus template_name
  end.

(** [Page.in_menu_template], on the value of the [in_menus] field: [None],
    or the list of the ids of the chosen menus, as strings. *)
Definition in_menu_template (PAGE_MENU_TEMPLATES : list (Z * string * string))
    (in_menus : option (list string)) (template_name : string) : bool :=
  match in_menus with
  | Some chosen => in_menu_loop PAGE_MENU_TEMPLATES chosen template_name
  | None => true
  end.

(** [Trail ids page_id ks]: the page ids [is_c_or_a] goes through from
    [page_id], a page that the dictionary does not know counting as one
    without a parent. *)
Inductive Trail (ids : gmap positive (option positive))
    : option positive -> list positive -> Prop :=
  | Trail_end : Trail ids None []
  | Trail_step i ks :
      Trail ids (mjoin (ids !! i)) ks -> Trail ids (Some i) (i :: ks).

End Pages.

(** ** The moderation mix-in *)

Module Moderation.
Import PyStr.

Record Group := mkGroup {
  gid : positive;
  name : string
}.

(** A user with the keys of the groups the user belongs to. *)
Record User := mkUser {
  uid : positive;
  email : string;
  groups : list positive
}.

#[export] Instance User_eq_dec : EqDecision User.
Proof. solve_decision. Defined.

(** One call of [send_mail]. *)
Record Mail := mkMail {
  subject : string;
  body : string;
  from_email : option string;
  recipient_list : list string;
  fail_silently : bool
}.

(** The tables and settings [send_pending_email] reads. *)
Record Env := mkEnv {
  users : list User;
  group_table : list Group;
  site_domain : string;
  DEBUG : bool;
  DEFAULT_FROM_EMAIL : option string
}.

(** A moderated item.  [owning_group] holds the key of the group, [None]
    when the foreign key is null; [publish_date] and the clock are points
    on one time line. *)
Record Moderated := mkModerated {
  pk : option positive;
  class_name : string;
  verbose_name : string;
  status : Z;
  approval : option Z;
  owning_group : option positive;
  publish_date : Z
}.

Definition PENDING : Z := 1.
Definition APPROVED : Z := 2.
Definition REJECTED : Z := 3.

Definition APPROVAL_STATES : list (Z * string) :=
  [(PENDING, "Pending"); (APPROVED, "Approved"); (REJECTED, "Rejected")].

(** [User.objects.filter(groups=g)] *)
Definition filter_groups (g : positive) (us : list User) : list User :=
  filter (λ u, g ∈ groups u) us.

(** [.filter(Q(groups__name=n))]: users with a group of that name. *)
Definition in_group_named (env : Env) (n : string) (u : User) : Prop :=
  Exists (λ g, gid g ∈ groups u ∧ name g = n) (group_table env).

#[export] Instance in_group_named_dec env n u : Decision (in_group_named env n u).
Proof. unfold in_group_named. apply _. Defined.

Definition filter_groups_name (env : Env) (n : string) (us : list User)
    : list User :=
  filter (in_group_named env n) us.

(** [a or b] on query sets: [a] unless it is empty. *)
Definition qs_or {A} (a b : list A) : list A :=
  match a with [] => b | _ => a end.

Section Framework.

(** [mezzanine.utils.urls.admin_url(model, url, object_id)] *)
Variable admin_url_for : string -> string -> option positive -> string.

(** [mezzanine.core.models.CONTENT_STATUS_DRAFT] *)
Variable CONTENT_STATUS_DRAFT : Z.

(** [django.utils.formats.localize] on dates *)
Variable localize : Z -> string.

Definition admin_url (self : Moderated) : string :=
  admin_url_for (class_name self) "change" (pk self).

(** [send_pending_email]: the value returned and the mails handed to
    [send_mail], appended to [outbox]. *)
Definition send_pending_email (env : Env) (self : Moderated)
    (outbox : list Mail) : list User * list Mail :=
  let _type := lower (verbose_name self) in
  let subject := "Draft " +:+ _type +:+ " needs moderation" in
  let body := "http://" +:+ site_domain env +:+ admin_url self in
  let publishers : list User := [] in
  let publishers :=
    match owning_group self with
    | Some g =>
        filter_groups_name env "Publisher" (filter_groups g (users env))
    | None => publishers
    end in
  let publishers :=
    qs_or publishers (filter_groups_name env "Publisher" (users env)) in
  let to := remove_dups (email <$> publishers) in
  let _from := DEFAULT_FROM_EMAIL env in
  (publishers,
   (outbox ++ [mkMail subject body _from to (negb (DEBUG env))])%list).

Definition current_status (now : Z) (self : Moderated) : string * string :=
  if bool_decide (status self = CONTENT_STATUS_DRAFT) then
    if bool_decide (approval self = Some PENDING) then
      ("pending", "Pending approval")
    else if bool_decide (approval self = Some REJECTED) then
      ("rejected", "Rejected")
    else ("draft", "Draft")
  else
    let pdate := localize (publish_date self) in
    if bool_decide (publish_date self < now)%Z then
      ("published", "Approved, published on " +:+ pdate)
    else ("approved", "Approved, to be published on " +:+ pdate).

End Framework.

(** The publishers [send_pending_email] is to notify, in the words of its
    description: the users of the "Publisher" group, restricted to the
    members of the owning group when there is one and the restriction
    leaves somebody. *)
Definition publishers_to_notify (env : Env) (self : Moderated) : list User :=
  let all := filter (in_group_named env "Publisher") (users env) in
  match owning_group self with
  | Some g =>
      let own :=
        filter (λ u, in_group_named env "Publisher" u ∧ g ∈ groups u)
          (users env) in
      if decide (own = []) then all else own
  | None => all
  end.

(** [Moderated.can_add] for the user of the request. *)
Definition can_add (env : Env) (user : User) : bool :=
  bool_decide (in_group_named env "Author" user).

End Moderation.

(** ** A small site, to run the models on

    Four pages: Home, About under Home, Team under About, and Blog, which
    has a URL pattern of its own. *)

Module Sample.
Import PyStr Pages Moderation.

Definition home : Page :=
  mkPage (Some 1%positive) "Page" "Home" "home" None (Some "Home")
    (Some "page").
Definition about : Page :=
  mkPage (Some 2%positive) "Page" "About" "home/about" (Some 1%positive)
    (Some "Home / About") (Some "page").
Definition team : Page :=
  mkPage (Some 3%positive) "Page" "Team" "home/about/team" (Some 2%positive)
    (Some "Home / About / Team") (Some "page").
Definition blog : Page :=
  mkPage (Some 4%positive) "Page" "Blog" "blog" None (Some "Blog")
    (Some "page").

(** A page that has not been saved yet. *)
Definition contact : Page :=
  mkPage None "RichTextPage" "Contact" "" (Some 2%positive) None None.

Definition db : DB :=
  mkDB
    (<[1%positive := home]> (<[2%positive := about]>
       (<[3%positive := team]> (<[4%positive := blog]> ∅))))
    [].

(** A second site: a landing page with no slug yet and a promotion under
    it; and a copy of the promotion, edited in memory so that it has no
    parent, which was not saved. *)
Definition landing : Page :=
  mkPage (Some 5%positive) "Page" "Landing" "" None (Some "Landing")
    (Some "page").
Definition promo : Page :=
  mkPage (Some 6%positive) "Page" "Promo" "promo" (Some 5%positive)
    (Some "Landing / Promo") (Some "page").

Definition promo_db : DB :=
  mkDB (<[5%positive := landing]> (<[6%positive := promo]> ∅)) [].


(** URL configuration: views are named by strings; only ["/blog/"] has a
    view of its own. *)
Definition reverse_page (s : string) : string := "/" +:+ s +:+ "/".
Definition resolve (url : string) : string :=
  if String.eqb url "/blog/" then "blog_post_list" else "page".
Definition page_view : string := "page".

(** A manager whose single query never finds the parents. *)
Definition no_single_query (_ : DB) (_ : string) (_ : option positive)
    : list PageObj :=
  [mkObj about (Some [])].

Definition publisher_group : Group := mkGroup 1 "Publisher".
Definition author_group : Group := mkGroup 2 "Author".
Definition news_group : Group := mkGroup 3 "News desk".

Definition ann : User := mkUser 1 "ann@example.org" [1%positive; 3%positive].
Definition bob : User := mkUser 2 "bob@example.org" [1%positive].
Definition cat : User := mkUser 3 "cat@example.org" [2%positive; 3%positive].

Definition env : Env :=
  mkEnv [ann; bob; cat] [publisher_group; author_group; news_group]
    "example.org" false (Some "cms@example.org").

Definition admin_url_for (model action : string) (_ : option positive)
    : string :=
  "/admin/" +:+ lower model +:+ "/" +:+ action +:+ "/".

Definition localize (_ : Z) : string := "1 May 2012".

(** A draft of the news desk that awaits approval. *)
Definition draft_item : Moderated :=
  mkModerated (Some 7%positive) "ModeratedPage" "Moderated page" 1
    (Some PENDING) (Some 3%positive) 1000.

(** A link to another site, a link inside the site, and a page whose
    parent pointer names no row. *)
Definition docs_link : Page :=
  mkPage (Some 8%positive) "Link" "Docs" "HTTP://docs.example.org" None
    (Some "Docs") (Some "link").
Definition wiki_link : Page :=
  mkPage (Some 9%positive) "Link" "Wiki" "//wiki/start" None (Some "Wiki")
    (Some "link").
Definition orphan : Page :=
  mkPage None "Page" "Orphan" "orphan" (Some 40%positive) None None.

(** A template context for a visit of Team, one for a visit of About, and
    one for a URL that is no page's. *)
Definition team_context : Context :=
  mkContext (Some team) (Some "/home/about/team/") (parents db).
Definition about_context : Context :=
  mkContext (Some about) (Some "/home/about/") (parents db).
Definition no_page_context : Context :=
  mkContext None (Some "/search/") (parents db).

Definition path_to_slug (path : string) : string := strip "/" path.

(** Menus as the settings list them. *)
Definition menu_templates : list (Z * string * string) :=
  [(1%Z, "Top navigation bar", "pages/menus/dropdown.html");
   (2%Z, "Left-hand tree", "pages/menus/tree.html");
   (3%Z, "Footer", "pages/menus/footer.html")].

(** A query that returns no page. *)
Definition empty_query (_ : DB) (_ : string) (_ : option positive)
    : list PageObj :=
  [].

(** A site that has authors only. *)
Definition authors_only : Env :=
  mkEnv [cat] [publisher_group; author_group; news_group] "example.org" false
    None.

End Sample.

(** * Properties *)

(** ** Strings *)

Section StringFacts.
Import PyStr.

Lemma prefix_split pre s :
  String.prefix pre s = true -> s = pre +:+ slice_from (String.length pre) s.
Proof.
  revert s. induction pre as [|a pre IH]; intros s H.
  - reflexivity.
  - destruct s as [|b s]; simpl in H; [discriminate|].
    destruct (ascii_dec a b) as [->|]; [|discriminate].
    change (String b s = String b (pre +:+ slice_from (String.length pre) s)).
    f_equal. now apply IH.
Qed.

Lemma prefix_refl s : String.prefix s s = true.
Proof.
  induction s as [|a s IH]; simpl; [reflexivity|].
  destruct (ascii_dec a a); [exact IH|congruence].
Qed.

Lemma append_assoc (a b c : string) : (a +:+ b) +:+ c = a +:+ (b +:+ c).
Proof.
  induction a as [|x a IH]; [reflexivity|].
  change (String x ((a +:+ b) +:+ c) = String x (a +:+ (b +:+ c))).
  now rewrite IH.
Qed.

Lemma join_snoc sep x xs z :
  join sep ((x :: xs) ++ [z])%list = join sep (x :: xs) +:+ sep +:+ z.
Proof.
  unfold join. revert x. induction xs as [|y xs IH]; intros x.
  - reflexivity.
  - change (x +:+ sep +:+ String.concat sep ((y :: xs) ++ [z])%list
            = (x +:+ sep +:+ String.concat sep (y :: xs)) +:+ sep +:+ z).
    rewrite IH, !append_assoc. reflexivity.
Qed.

Example replace_first_ex :
  replace_first "about" "company" "about/team/about" = "company/team/about".
Proof. reflexivity. Qed.

Example strip_ex : strip "/" "//about/team/" = "about/team".
Proof. reflexivity. Qed.

Example lower_ex : lower "RichTextPage" = "richtextpage".
Proof. reflexivity. Qed.

Example join_ex : join " / " ["Home"; "About"; "Team"] = "Home / About / Team".
Proof. reflexivity. Qed.

End StringFacts.

(** ** Paths and ancestries in the store *)

Section PathFacts.
Import PyStr Pages.

Implicit Types (db : DB) (m : gmap positive (option positive)).

Lemma parents_lookup db i :
  parents db !! i = parent_id <$> rows db !! i.
Proof. unfold parents. apply lookup_fmap. Qed.

Lemma fetch_Some db i par :
  fetch db i = Some par ->
  pk par = Some i ∧ parents db !! i = Some (parent_id par).
Proof.
  unfold fetch. rewrite parents_lookup.
  destruct (rows db !! i) as [r|]; simpl; [|discriminate].
  intros [= <-]. split; reflexivity.
Qed.

Lemma fetch_of_parents db i o :
  parents db !! i = Some o ->
  ∃ par, fetch db i = Some par ∧ parent_id par = o ∧ pk par = Some i.
Proof.
  rewrite parents_lookup. unfold fetch.
  destruct (rows db !! i) as [r|]; simpl; [|discriminate].
  intros [= <-]. eexists. repeat split.
Qed.

Lemma fetch_same_rows db db' i :
  rows db' !! i = rows db !! i -> fetch db' i = fetch db i.
Proof. unfold fetch. now intros ->. Qed.

Lemma get_parent_Val_Some db pg par :
  get_parent db pg = Val (Some par) ->
  ∃ i, parent_id pg = Some i ∧ fetch db i = Some par.
Proof.
  unfold get_parent. destruct (parent_id pg) as [i|]; [|discriminate].
  destruct (fetch db i) as [r|] eqn:E; [|discriminate].
  intros [= <-]. eauto.
Qed.

Lemma get_parent_Val_None db pg :
  get_parent db pg = Val None -> parent_id pg = None.
Proof.
  unfold get_parent. destruct (parent_id pg) as [i|]; [|reflexivity].
  destruct (fetch db i); discriminate.
Qed.

Lemma get_parent_not_NoFuel db pg : get_parent db pg ≠ NoFuel.
Proof.
  unfold get_parent. destruct (parent_id pg) as [i|]; [|discriminate].
  destruct (fetch db i); discriminate.
Qed.

Lemma get_parent_Exc db pg e : get_parent db pg = Exc e -> e = DoesNotExist.
Proof.
  unfold get_parent. destruct (parent_id pg) as [i|]; [|discriminate].
  destruct (fetch db i); [discriminate|]. now intros [= <-].
Qed.

Lemma Path_det m o ks ks' : Path m o ks -> Path m o ks' -> ks = ks'.
Proof.
  intros H. revert ks'. induction H as [|i o ks Hi _ IH]; intros ks' H'.
  - now inversion H'.
  - inversion H' as [|i' o' ks2 Hi' Hp]; subst.
    rewrite Hi in Hi'. injection Hi' as <-. f_equal. now apply IH.
Qed.

Lemma Path_keys m o ks k : Path m o ks -> k ∈ ks -> is_Some (m !! k).
Proof.
  induction 1 as [|i o ks Hi _ IH]; intros Hin.
  - now apply elem_of_nil in Hin.
  - apply elem_of_cons in Hin as [->|Hin]; eauto.
Qed.

(** A key is not on the path that starts at its own parent. *)
Lemma Path_no_self m i o ks : m !! i = Some o -> Path m o ks -> i ∉ ks.
Proof.
  intros Hi Hp Hin.
  assert (∃ ks', Path m (Some i) ks' ∧ (List.length ks' ≤ List.length ks)%nat) as (ks' & Hp' & Hle).
  { clear Hi. induction Hp as [|j o' ks Hj Hp IH].
    - now apply elem_of_nil in Hin.
    - apply elem_of_cons in Hin as [->|Hin].
      + exists (j :: ks). split; [econstructor; eassumption|lia].
      + destruct (IH Hin) as (ks' & ? & ?). exists ks'. split; [done|simpl; lia]. }
  pose proof (Path_det _ _ _ _ Hp' (Path_step m i o ks Hi Hp)) as ->.
  simpl in Hle. lia.
Qed.

Lemma Path_insert_frame m i x o ks :
  Path m o ks -> i ∉ ks -> Path (<[i := x]> m) o ks.
Proof.
  induction 1 as [|j o ks Hj _ IH]; intros Hni; [constructor|].
  apply not_elem_of_cons in Hni as [Hne Hni].
  econstructor; [|now apply IH].
  now rewrite lookup_insert_ne.
Qed.

(** Pointing page [i] at [o] keeps a forest a forest as long as [i] is not
    on the path from [o] to the root. *)
Lemma Forest_insert m i o ks :
  Forest m -> Path m o ks -> i ∉ ks -> Forest (<[i := o]> m).
Proof.
  intros HF Hp Hni.
  assert (Hnew : Path (<[i := o]> m) o ks) by now apply Path_insert_frame.
  assert (Hall : ∀ o1 ks1, Path m o1 ks1 -> ∃ ks', Path (<[i := o]> m) o1 ks').
  { induction 1 as [|j o1 ks1 Hj _ [ks' IH]]; [eexists; constructor|].
    destruct (decide (j = i)) as [->|Hne].
    - exists (i :: ks). econstructor; [apply lookup_insert_eq|done].
    - exists (j :: ks'). econstructor; [|done]. now rewrite lookup_insert_ne. }
  intros j oj Hj. destruct (decide (j = i)) as [->|Hne].
  - rewrite lookup_insert_eq in Hj. injection Hj as <-. eauto.
  - rewrite lookup_insert_ne in Hj by done.
    destruct (HF _ _ Hj) as [ks1 H1]. eapply Hall, H1.
Qed.

(** A forest has a bound on the List.length of its paths. *)
Lemma Forest_bound m :
  Forest m -> ∃ N, ∀ i o, m !! i = Some o -> ∃ ks, Path m o ks ∧ (List.length ks ≤ N)%nat.
Proof.
  intros HF.
  assert (H : ∀ l : list (positive * option positive),
             (∀ i o, (i, o) ∈ l -> m !! i = Some o) ->
             ∃ N, ∀ i o, (i, o) ∈ l -> ∃ ks, Path m o ks ∧ (List.length ks ≤ N)%nat).
  { induction l as [|[j oj] l IH]; intros Hl.
    - exists 0. intros i o Hin. now apply elem_of_nil in Hin.
    - destruct IH as [N HN].
      { intros i o Hin. apply Hl. now right. }
      destruct (HF j oj) as [ks Hks]; [apply Hl; left|].
      exists (N `max` List.length ks)%nat. intros i o Hin.
      apply elem_of_cons in Hin as [[= -> ->]|Hin].
      + exists ks. split; [done|lia].
      + destruct (HN _ _ Hin) as (ks' & ? & ?). exists ks'. split; [done|lia]. }
  destruct (H (map_to_list m)) as [N HN].
  { intros i o. apply elem_of_map_to_list. }
  exists N. intros i o Hi. apply (HN i o). now apply elem_of_map_to_list.
Qed.

Lemma path_of_sound m fuel o ks : path_of fuel m o = Some ks -> Path m o ks.
Proof.
  revert o ks. induction fuel as [|fuel IH]; intros [i|] ks; simpl;
    try discriminate; try (intros [= <-]; constructor).
  destruct (m !! i) as [o'|] eqn:E; [|discriminate].
  destruct (path_of fuel m o') as [ks'|] eqn:E'; simpl; [|discriminate].
  intros [= <-]. econstructor; eauto.
Qed.

Lemma forestb_sound db : forestb db = true -> forest db.
Proof.
  unfold forestb, forest. intros H%bool_decide_eq_true i o Hi.
  destruct (H i o Hi) as [ks Hks]. exists ks. eapply path_of_sound, Hks.
Qed.

Lemma attachedb_sound db q : attachedb db q = true -> attached db q.
Proof.
  destruct q as [q|]; simpl; [|done].
  destruct (pk q) as [i|] eqn:E; [|discriminate].
  destruct (rows db !! i) as [r|] eqn:Er; [|discriminate].
  intros H%bool_decide_eq_true. exists i. split; [done|].
  unfold fetch. now rewrite Er, <- H.
Qed.

(** The objects visited from a page whose parent pointer has a path. *)
Lemma Path_Ancestry db pg ks :
  Path (parents db) (parent_id pg) ks ->
  ∃ l, Ancestry db (Some pg) (pg :: l) ∧ pk <$> l = Some <$> ks.
Proof.
  remember (parent_id pg) as o eqn:Ho. intros H. revert pg Ho.
  induction H as [|i o ks Hi _ IH]; intros pg Ho.
  - exists []. split; [|done]. econstructor; [|constructor].
    unfold get_parent. now rewrite <- Ho.
  - destruct (fetch_of_parents _ _ _ Hi) as (par & Hf & Hpar & Hpk).
    destruct (IH par (eq_sym Hpar)) as (l & Hl & Hks).
    exists (par :: l). split.
    + econstructor; [|exact Hl]. unfold get_parent. now rewrite <- Ho, Hf.
    + now rewrite !fmap_cons, Hpk, Hks.
Qed.

Lemma Ancestry_det db o l l' : Ancestry db o l -> Ancestry db o l' -> l = l'.
Proof.
  intros H. revert l'. induction H as [|par next l Hg _ IH]; intros l' H'.
  - now inversion H'.
  - inversion H' as [|par' next' l2 Hg' Ha]; subst.
    rewrite Hg in Hg'. injection Hg' as <-. f_equal. now apply IH.
Qed.

(** In a forest every attached candidate parent has an ancestry, whose
    keys are a path of the store. *)
Lemma attached_Ancestry db q :
  forest db -> attached db q ->
  ∃ l ks, Ancestry db q l ∧ pk <$> l = Some <$> ks ∧
          Path (parents db) (q ≫= pk) ks.
Proof.
  intros HF Hq. destruct q as [q|]; simpl in *.
  - destruct Hq as (i & Hpk & Hf).
    destruct (fetch_Some _ _ _ Hf) as [_ Hi].
    destruct (HF _ _ Hi) as [ks Hks].
    destruct (Path_Ancestry db q ks Hks) as (l & Hl & Hlk).
    exists (q :: l), (i :: ks). split; [done|]. split.
    + now rewrite !fmap_cons, Hpk, Hlk.
    + rewrite Hpk. econstructor; eauto.
  - exists [], []. repeat split; constructor.
Qed.

End PathFacts.

(** ** Saving a page *)

Section SaveFacts.
Import PyStr Pages.

Implicit Types (db : DB) (self : Page).

Lemma save_titles_spec db parent l :
  Ancestry db parent l ->
  ∀ fuel acc,
    save_titles fuel db parent acc =
    if decide (List.length l ≤ fuel)%nat
    then Val (reverse (title <$> l) ++ acc)%list else NoFuel.
Proof.
  induction 1 as [|par next l Hg _ IH]; intros fuel acc.
  - destruct fuel; reflexivity.
  - destruct fuel as [|fuel]; [reflexivity|].
    cbn [save_titles]. rewrite Hg, IH, fmap_cons, reverse_cons.
    cbn [List.length]. rewrite <- app_assoc. cbn [app].
    destruct (decide (List.length l ≤ fuel)%nat),
      (decide (S (List.length l) ≤ S fuel)%nat); (reflexivity || lia).
Qed.

(** [save] can only fail on a dangling parent pointer. *)
Lemma save_titles_Exc fuel db parent acc e :
  save_titles fuel db parent acc = Exc e -> e = DoesNotExist.
Proof.
  revert parent acc. induction fuel as [|fuel IH]; intros [par|] acc; simpl;
    try discriminate.
  destruct (get_parent db par) as [next|e'|] eqn:E; try discriminate.
  - apply IH.
  - intros [= <-]. eapply get_parent_Exc, E.
Qed.

Lemma save_with_spec db parent l self fuel :
  Ancestry db parent l ->
  save_with (Val parent) fuel self db =
  if decide (List.length l ≤ fuel)%nat
  then Returned tt
         (base_save
            (with_titles
               (Some (join " / " (reverse (title <$> l) ++ [title self])%list))
               (first_save_fields self)) db)
  else OutOfFuel.
Proof.
  intros Ha. unfold save_with. fold (first_save_fields self).
  rewrite (save_titles_spec _ _ _ Ha).
  assert (title (first_save_fields self) = title self) as ->.
  { unfold first_save_fields. now destruct (pk self). }
  now destruct (decide _).
Qed.

(** Whatever the fuel, [save_with] either runs out of it, raises
    [DoesNotExist] leaving the store as it was, or writes one row. *)
Lemma save_with_cases parent fuel self db :
  parent ≠ NoFuel ->
  (∀ e, parent = Exc e -> e = DoesNotExist) ->
  save_with parent fuel self db = OutOfFuel ∨
  save_with parent fuel self db
    = Raised DoesNotExist (first_save_fields self, db) ∨
  ∃ ts, save_with parent fuel self db
        = Returned tt
            (base_save (with_titles (Some ts) (first_save_fields self)) db).
Proof.
  intros Hnf He. unfold save_with. fold (first_save_fields self).
  destruct parent as [par|e|]; [| |done].
  - destruct (save_titles _ _ _ _) as [ts|e|] eqn:E; eauto.
    apply save_titles_Exc in E as ->. eauto.
  - rewrite (He e eq_refl). eauto.
Qed.

Lemma save_cases fuel self db :
  save fuel self db = OutOfFuel ∨
  save fuel self db = Raised DoesNotExist (first_save_fields self, db) ∨
  ∃ ts, save fuel self db
        = Returned tt
            (base_save (with_titles (Some ts) (first_save_fields self)) db).
Proof.
  apply save_with_cases; [apply get_parent_not_NoFuel|apply get_parent_Exc].
Qed.

(** Saving a page whose parent pointer has a path in the store. *)
Lemma save_path self db ks :
  Path (parents db) (parent_id self) ks ->
  ∃ ts, ∀ fuel,
    save fuel self db =
    if decide (List.length ks ≤ fuel)%nat
    then Returned tt
           (base_save (with_titles (Some ts) (first_save_fields self)) db)
    else OutOfFuel.
Proof.
  intros Hp. destruct (Path_Ancestry db self ks Hp) as (l & Ha & Hlk).
  inversion Ha as [|? next ? Hg Hl]; subst.
  eexists. intros fuel. unfold save.
  rewrite Hg, (save_with_spec _ _ _ _ _ Hl).
  apply (f_equal List.length) in Hlk. rewrite !length_fmap in Hlk.
  rewrite Hlk. reflexivity.
Qed.

Lemma base_save_parents self db :
  parents (base_save self db).2
  = <[default (fresh (dom (rows db))) (pk self) := parent_id self]>
      (parents db).
Proof. unfold parents, base_save. simpl. now rewrite fmap_insert. Qed.

(** Rewriting a stored row without touching its parent pointer leaves the
    pointers of the store as they were. *)
Lemma base_save_same_parents self db i :
  pk self = Some i -> parents db !! i = Some (parent_id self) ->
  parents (base_save self db).2 = parents db.
Proof.
  intros Hpk Hi. rewrite base_save_parents, Hpk. simpl.
  now apply insert_id.
Qed.

End SaveFacts.

(** ** Page.save and Page.get_slug *)

Section SaveAndSlug.
Import PyStr Pages.

Variable slugify : string -> string.

(** C6: [Page.save] sets [titles] to the titles along the parent chain,
    from the root ancestor down to the page itself, joined by [" / "]; it
    sets [content_model] to the lowercased model name exactly when the
    page has no id yet; and it stores the page.  [l] lists the ancestors
    from the parent up to the root, so [reverse l ++ [self]] runs from the
    root down to the page. *)
Theorem save_sets_titles (db : DB) (self : Page) (l : list Page) (fuel : nat) :
  Ancestry db (Some self) (self :: l) ->
  (List.length l ≤ fuel)%nat ->
  ∃ self' db' i,
    save fuel self db = Returned tt (self', db') ∧
    titles self' = Some (join " / " (title <$> (reverse l ++ [self]))%list) ∧
    content_model self'
      = match pk self with
        | Some _ => content_model self
        | None => Some (lower (object_name self))
        end ∧
    pk self' = Some i ∧ (∀ j, pk self = Some j -> i = j) ∧
    rows db' !! i = Some self' ∧
    writes db' = (writes db ++ [i])%list ∧
    (∀ j, j ≠ i -> rows db' !! j = rows db !! j).
Proof.
  intros Ha Hfuel. inversion Ha as [|? next ? Hg Hl]; subst.
  unfold save. rewrite Hg, (save_with_spec _ _ _ _ _ Hl).
  destruct (decide _) as [_|]; [|done].
  unfold base_save. do 3 eexists. split; [reflexivity|]. simpl.
  split; [|split; [|split; [reflexivity|split; [|split; [|split]]]]].
  - now rewrite fmap_app, fmap_reverse.
  - unfold first_save_fields. now destruct (pk self).
  - intros j Hj. unfold first_save_fields. rewrite Hj. simpl. now rewrite Hj.
  - apply lookup_insert_eq.
  - reflexivity.
  - intros j Hj. now apply lookup_insert_ne.
Qed.

(** C4: [Page.get_slug] is [slugify(title)] for a page with no parent and
    the parent's slug, ["/"] and [slugify(title)] for a page with one; so
    when the slug of every ancestor was built this way, the slug is the
    slugified titles from the root down to the page joined by ["/"]. *)
Theorem get_slug_recursive (db : DB) (self : Page) :
  (parent_id self = None ->
   get_slug slugify db self = Val (slugify (title self))) ∧
  (∀ i parent, parent_id self = Some i -> fetch db i = Some parent ->
   get_slug slugify db self
   = Val (slug parent +:+ "/" +:+ slugify (title self))) ∧
  (∀ l, Ancestry db (Some self) (self :: l) ->
   Forall (λ a, get_slug slugify db a = Val (slug a)) l ->
   get_slug slugify db self
   = Val (join "/" (slugify ∘ title <$> (reverse l ++ [self]))%list)).
Proof.
  assert (H1 : ∀ pg, parent_id pg = None ->
               get_slug slugify db pg = Val (slugify (title pg))).
  { intros pg H. unfold get_slug, get_parent. now rewrite H. }
  assert (H2 : ∀ pg i parent, parent_id pg = Some i ->
               fetch db i = Some parent ->
               get_slug slugify db pg
               = Val (slug parent +:+ "/" +:+ slugify (title pg))).
  { intros pg i parent H Hf. unfold get_slug, get_parent. now rewrite H, Hf. }
  split; [apply H1|]. split; [apply H2|].
  intros l. revert self. induction l as [|a l IH]; intros self Ha Hall.
  - inversion Ha as [|? next ? Hg Hl]; subst. inversion Hl; subst.
    rewrite H1 by (eapply get_parent_Val_None, Hg). reflexivity.
  - inversion Ha as [|? next ? Hg Hl]; subst.
    inversion Hl as [|? next' ? Hg' Hl']; subst.
    apply get_parent_Val_Some in Hg as (i & Hi & Hf).
    rewrite (H2 _ _ _ Hi Hf).
    apply Forall_cons in Hall as [Hslug Hall].
    pose proof (IH a Hl Hall) as E. rewrite Hslug in E.
    injection E as ->. f_equal.
    rewrite reverse_cons, (fmap_app _ _ [self]).
    destruct (slugify ∘ title <$> reverse l ++ [a])%list as [|x xs] eqn:E.
    { apply (f_equal List.length) in E.
      rewrite length_fmap, length_app in E. simpl in E. lia. }
    symmetry. apply join_snoc.
Qed.

End SaveAndSlug.

(** ** Page.set_slug *)

Section SetSlug.
Import PyStr Pages.

Context {View : Type} `{EqDecision View}.
Variable reverse_page : string -> string.
Variable resolve : string -> View.
Variable page_view : View.

Local Abbreviation overridden := (overridden reverse_page resolve page_view).
Local Abbreviation set_slug_loop :=
  (set_slug_loop reverse_page resolve page_view).
Local Abbreviation set_slug := (set_slug reverse_page resolve page_view).
Local Abbreviation saved_keys := (keys_not overridden).

Implicit Types (db : DB) (self page : Page) (pages : list Page).

Lemma with_pk_id page i : pk page = Some i -> with_pk (Some i) page = page.
Proof. destruct page; simpl; now intros ->. Qed.

Lemma save_stored_cases fuel page db i :
  pk page = Some i ->
  save fuel page db = OutOfFuel ∨
  save fuel page db = Raised DoesNotExist (page, db) ∨
  ∃ ts, save fuel page db
        = Returned tt
            (with_titles (Some ts) page,
             mkDB (<[i := with_titles (Some ts) page]> (rows db))
               (writes db ++ [i])%list).
Proof.
  intros Hpk.
  assert (Hf : first_save_fields page = page).
  { unfold first_save_fields. now rewrite Hpk. }
  pose proof (save_cases fuel page db) as Hc. rewrite Hf in Hc.
  destruct Hc as [E|[E|[ts E]]]; [now left|now (right; left)|].
  right; right. exists ts. rewrite E. unfold base_save. simpl.
  rewrite Hpk. simpl. now rewrite (with_pk_id (with_titles _ page) i Hpk).
Qed.

Lemma saved_keys_skip page pages :
  overridden page = true -> saved_keys (page :: pages) = saved_keys pages.
Proof.
  intros Ho. unfold keys_not. rewrite filter_cons.
  destruct (decide _) as [E|_]; [congruence|reflexivity].
Qed.

Lemma saved_keys_keep page pages i :
  overridden page = false -> pk page = Some i ->
  saved_keys (page :: pages) = i :: saved_keys pages.
Proof.
  intros Ho Hpk. unfold keys_not. rewrite filter_cons.
  destruct (decide _) as [_|E]; [|congruence]. simpl. now rewrite Hpk.
Qed.

Lemma elem_of_saved_keys pages i :
  i ∈ saved_keys pages <->
  ∃ page, page ∈ pages ∧ pk page = Some i ∧ overridden page = false.
Proof.
  unfold keys_not. rewrite list_elem_of_omap. split.
  - intros (page & [Ho Hin]%list_elem_of_filter & Hpk). eauto.
  - intros (page & Hin & Hpk & Ho). exists page. split; [|done].
    now apply list_elem_of_filter.
Qed.

(** Effect of the loop of [set_slug] on the store, at any fuel: the
    instance is not touched, the keys written are those of the pages that
    are not overridden, in order, and every other row is as before. *)
Lemma set_slug_loop_effect fuel self n pages db :
  Forall (λ page, is_Some (pk page)) pages ->
  match set_slug_loop fuel self n pages db with
  | OutOfFuel => True
  | Returned _ (s, db') =>
      s = self ∧ writes db' = (writes db ++ saved_keys pages)%list ∧
      ∀ i, i ∉ saved_keys pages -> rows db' !! i = rows db !! i
  | Raised e (s, db') =>
      e = DoesNotExist ∧ s = self ∧
      ∃ ws, ws `prefix_of` saved_keys pages ∧
            writes db' = (writes db ++ ws)%list ∧
            ∀ i, i ∉ ws -> rows db' !! i = rows db !! i
  end.
Proof.
  revert db. induction pages as [|page pages IH]; intros db Hpk.
  - simpl. split; [done|]. split; [|done].
    unfold keys_not. simpl. now rewrite app_nil_r.
  - apply Forall_cons in Hpk as [[i Hi] Hpk]. cbn [Pages.set_slug_loop].
    destruct (overridden page) eqn:Eo.
    + rewrite (saved_keys_skip _ _ Eo). now apply IH.
    + rewrite (saved_keys_keep _ _ i Eo Hi).
      set (page' := with_slug _ page).
      assert (Hi' : pk page' = Some i) by done.
      destruct (save_stored_cases fuel page' db i Hi') as [E|[E|[ts E]]];
        rewrite E; [done| |].
      * split; [done|]. split; [done|]. exists []. split.
        { apply prefix_nil. }
        split; [now rewrite app_nil_r|done].
      * set (db1 := mkDB _ _). specialize (IH db1 Hpk).
        destruct (set_slug_loop fuel self n pages db1) as [[] [s db']|e [s db']|];
          [| |done].
        { destruct IH as (-> & Hw & Hr). split; [done|]. split.
          - rewrite Hw. unfold db1. simpl. now rewrite <- app_assoc.
          - intros j [Hne Hj]%not_elem_of_cons. rewrite (Hr j Hj).
            unfold db1. simpl. now rewrite lookup_insert_ne. }
        { destruct IH as (-> & -> & ws & Hpre & Hw & Hr).
          split; [done|]. split; [done|]. exists (i :: ws). split.
          - now apply prefix_cons.
          - split.
            + rewrite Hw. unfold db1. simpl. now rewrite <- app_assoc.
            + intros j [Hne Hj]%not_elem_of_cons. rewrite (Hr j Hj).
              unfold db1. simpl. now rewrite lookup_insert_ne. }
Qed.

(** The rows the loop writes, once it has returned. *)
Lemma set_slug_loop_written fuel self n pages db s db' :
  Forall (λ page, is_Some (pk page)) pages ->
  NoDup (pk <$> pages) ->
  set_slug_loop fuel self n pages db = Returned tt (s, db') ->
  ∀ page i, page ∈ pages -> overridden page = false -> pk page = Some i ->
  ∃ ts, rows db' !! i
        = Some (with_titles (Some ts) (renamed n (slug self) page)).
Proof.
  revert db. induction pages as [|page0 pages IH]; intros db Hpk Hnd Hrun.
  { intros page i Hin. now apply elem_of_nil in Hin. }
  apply Forall_cons in Hpk as [[i0 Hi0] Hpk].
  rewrite fmap_cons in Hnd. apply NoDup_cons in Hnd as [Hni Hnd].
  cbn [Pages.set_slug_loop] in Hrun.
  destruct (overridden page0) eqn:Eo0.
  - intros page i Hin Ho Hi. apply elem_of_cons in Hin as [->|Hin].
    + congruence.
    + eapply IH; eauto.
  - fold (renamed n (slug self) page0) in Hrun.
    assert (Hi' : pk (renamed n (slug self) page0) = Some i0) by done.
    destruct (save_stored_cases fuel _ db i0 Hi') as [E|[E|[ts E]]];
      rewrite E in Hrun; try discriminate.
    set (db1 := mkDB _ _) in Hrun.
    intros page i Hin Ho Hi. apply elem_of_cons in Hin as [->|Hin].
    + assert (i = i0) as -> by congruence.
      pose proof (set_slug_loop_effect fuel self n pages db1 Hpk) as He.
      rewrite Hrun in He. destruct He as (_ & _ & Hr).
      exists ts. rewrite Hr.
      * unfold db1. simpl. apply lookup_insert_eq.
      * intros (page' & Hin' & Hpk' & _)%elem_of_saved_keys.
        apply Hni.
        match goal with
        | |- ?x ∈ _ => replace x with (pk page') by congruence
        end.
        now apply list_elem_of_fmap_2.
    + eapply IH; eauto.
Qed.

(** The pages the query of [set_slug] returns. *)
Lemma elem_of_query db s page :
  page ∈ objects_filter_slug_startswith db s <->
  ∃ i r, rows db !! i = Some r ∧ startswith (slug r) s = true ∧
         page = with_pk (Some i) r.
Proof.
  unfold objects_filter_slug_startswith. rewrite list_elem_of_fmap. split.
  - intros ([i r] & -> & [Hs Hin]%list_elem_of_filter).
    apply elem_of_map_to_list in Hin. exists i, r. auto.
  - intros (i & r & Hi & Hs & ->). exists (i, r). split; [done|].
    apply list_elem_of_filter. split; [done|]. now apply elem_of_map_to_list.
Qed.

Lemma query_pk db s :
  Forall (λ page, is_Some (pk page)) (objects_filter_slug_startswith db s).
Proof.
  apply Forall_forall. intros page (i & r & _ & _ & ->)%elem_of_query.
  now exists i.
Qed.

Lemma query_NoDup db s : NoDup (pk <$> objects_filter_slug_startswith db s).
Proof.
  unfold objects_filter_slug_startswith. rewrite <- list_fmap_compose.
  set (l := filter _ _).
  assert (Hl : NoDup (l.*1)).
  { eapply sublist_NoDup; [apply (NoDup_fst_map_to_list (rows db))|].
    apply fmap_sublist, sublist_filter. }
  replace (pk ∘ _ <$> l) with (Some <$> l.*1).
  - apply NoDup_fmap_2; [apply _|done].
  - rewrite <- list_fmap_compose. apply list_fmap_ext. now intros _ [i r] _.
Qed.

Lemma query_stored db s :
  Forall (λ page, ∃ i, pk page = Some i ∧
                       parents db !! i = Some (parent_id page))
    (objects_filter_slug_startswith db s).
Proof.
  apply Forall_forall. intros page (i & r & Hi & _ & ->)%elem_of_query.
  exists i. split; [done|]. rewrite parents_lookup, Hi. reflexivity.
Qed.

(** On a store whose paths are bounded by [N], the loop rewrites rows that
    are stored with the parent pointers they have: it never raises, fuel
    [N] is enough, and the parent pointers stay as they are. *)
Lemma set_slug_loop_forest N fuel self n pages db :
  (∀ i o, parents db !! i = Some o ->
          ∃ ks, Path (parents db) o ks ∧ (List.length ks ≤ N)%nat) ->
  Forall (λ page, ∃ i, pk page = Some i ∧
                       parents db !! i = Some (parent_id page)) pages ->
  match set_slug_loop fuel self n pages db with
  | Returned _ (_, db') => parents db' = parents db
  | Raised _ _ => False
  | OutOfFuel => (fuel < N)%nat
  end.
Proof.
  revert db. induction pages as [|page pages IH]; intros db HN Hst.
  - reflexivity.
  - apply Forall_cons in Hst as [(i & Hi & Hpar) Hst].
    cbn [Pages.set_slug_loop]. destruct (overridden page); [now apply IH|].
    fold (renamed n (slug self) page).
    destruct (HN _ _ Hpar) as (ks & Hks & Hlen).
    destruct (save_path (renamed n (slug self) page) db ks Hks) as [ts Hsave].
    rewrite Hsave. destruct (decide _) as [_|Hno]; [|lia].
    destruct (base_save _ db) as [s1 db1] eqn:Eb.
    assert (Hsame : parents db1 = parents db).
    { change db1 with (s1, db1).2. rewrite <- Eb.
      assert (Hf : first_save_fields (renamed n (slug self) page)
                   = renamed n (slug self) page).
      { unfold first_save_fields. simpl. now rewrite Hi. }
      rewrite Hf. now apply (base_save_same_parents _ _ i). }
    specialize (IH db1). rewrite Hsame in IH. specialize (IH HN Hst).
    destruct (set_slug_loop fuel self n pages db1) as [[] [s db']|e [s db']|];
      [|done|done].
    exact IH.
Qed.

(** C3: on a store whose parent pointers form a forest, [Page.set_slug]
    returns; every stored page whose slug starts with the page's current
    slug and is not overridden is saved with the new slug followed by the
    rest of its old slug, its other fields being those it had; and the
    instance ends with the new slug. *)
Theorem set_slug_rewrites (db : DB) (self : Page) (n : string) :
  forest db ->
  ∃ N, ∀ fuel, (N ≤ fuel)%nat ->
    ∃ db' ws,
      set_slug fuel n self db = Returned tt (with_slug n self, db') ∧
      writes db' = (writes db ++ ws)%list ∧
      ∀ i r, rows db !! i = Some r ->
             startswith (slug r) (slug self) = true ->
             overridden r = false ->
        i ∈ ws ∧
        ∃ r', rows db' !! i = Some r' ∧
              slug r' = n +:+ slice_from (String.length (slug self)) (slug r) ∧
              pk r' = Some i ∧ title r' = title r ∧
              parent_id r' = parent_id r ∧ object_name r' = object_name r ∧
              content_model r' = content_model r.
Proof.
  intros HF. destruct (Forest_bound _ HF) as [N HN]. exists N.
  intros fuel Hfuel. unfold Pages.set_slug.
  set (pages := objects_filter_slug_startswith db (slug self)).
  pose proof (set_slug_loop_forest N fuel self n pages db HN
                (query_stored db (slug self))) as Hrun.
  pose proof (set_slug_loop_effect fuel self n pages db
                (query_pk db (slug self))) as Heff.
  pose proof (set_slug_loop_written fuel self n pages db) as Hwr.
  destruct (set_slug_loop fuel self n pages db) as [[] [s db']|e [s db']|];
    [|done|lia].
  destruct Heff as (-> & Hw & _).
  exists db', (saved_keys pages). split; [done|]. split; [done|].
  intros i r Hi Hs Ho.
  assert (Hin : with_pk (Some i) r ∈ pages).
  { apply elem_of_query. eauto. }
  split.
  - apply elem_of_saved_keys. exists (with_pk (Some i) r). auto.
  - destruct (Hwr self db' (query_pk db (slug self)) (query_NoDup db (slug self))
                eq_refl (with_pk (Some i) r) i Hin Ho eq_refl) as [ts Hts].
    eexists. split; [exact Hts|]. repeat split.
Qed.

(** C10: whatever the fuel and whether [Page.set_slug] returns or raises,
    the only rows it writes are those of stored pages whose slug starts
    with the page's current slug and that are not overridden: under any
    other key the store holds what it held, and no save happened. *)
Theorem set_slug_frame (fuel : nat) (db : DB) (self : Page) (n : string) :
  after (set_slug fuel n self db) (λ s,
    ∃ ws, writes s.2 = (writes db ++ ws)%list ∧
      ∀ i, (∀ r, rows db !! i = Some r ->
                 startswith (slug r) (slug self) = false ∨
                 overridden r = true) ->
           rows s.2 !! i = rows db !! i ∧ i ∉ ws).
Proof.
  unfold Pages.set_slug.
  set (pages := objects_filter_slug_startswith db (slug self)).
  pose proof (set_slug_loop_effect fuel self n pages db
                (query_pk db (slug self))) as Heff.
  assert (Hout : ∀ i, (∀ r, rows db !! i = Some r ->
                 startswith (slug r) (slug self) = false ∨
                 overridden r = true) -> i ∉ saved_keys pages).
  { intros i Hi (page & Hin & Hpk & Ho)%elem_of_saved_keys.
    apply elem_of_query in Hin as (j & r & Hj & Hs & ->).
    injection Hpk as ->. destruct (Hi r Hj) as [E|E]; [congruence|].
    change (overridden (with_pk (Some i) r)) with (overridden r) in Ho.
    congruence. }
  destruct (set_slug_loop fuel self n pages db) as [[] [s db']|e [s db']|];
    simpl; [| |done].
  - destruct Heff as (_ & Hw & Hr). exists (saved_keys pages).
    split; [done|]. intros i Hi. split; [apply Hr|]; now apply Hout.
  - destruct Heff as (_ & _ & ws & [k Hk] & Hw & Hr). exists ws.
    split; [done|]. intros i Hi.
    assert (i ∉ ws).
    { intros Hin. apply (Hout i Hi). rewrite Hk. apply elem_of_app. now left. }
    split; [now apply Hr|done].
Qed.

(** [set_slug] on a forest: there is a bound, the same for every page and
    slug, past which it returns; it never raises; and it leaves the parent
    pointers of the store as they are. *)
Lemma set_slug_forest db :
  forest db ->
  ∃ N, ∀ self n fuel,
    match set_slug fuel n self db with
    | Returned _ (s, db') =>
        s = with_slug n self ∧ parents db' = parents db ∧
        ∃ ws, writes db' = (writes db ++ ws)%list
    | Raised _ _ => False
    | OutOfFuel => (fuel < N)%nat
    end.
Proof.
  intros HF. destruct (Forest_bound _ HF) as [N HN]. exists N.
  intros self n fuel. unfold Pages.set_slug.
  set (pages := objects_filter_slug_startswith db (slug self)).
  pose proof (set_slug_loop_forest N fuel self n pages db HN
                (query_stored db (slug self))) as Hrun.
  pose proof (set_slug_loop_effect fuel self n pages db
                (query_pk db (slug self))) as Heff.
  destruct (set_slug_loop fuel self n pages db) as [[] [s db']|e [s db']|];
    [|done|done].
  destruct Heff as (-> & Hw & _). eauto.
Qed.

(** The only exception [set_slug] can raise is [DoesNotExist]. *)
Lemma set_slug_Raised fuel n self db e s :
  set_slug fuel n self db = Raised e s -> e = DoesNotExist.
Proof.
  unfold Pages.set_slug.
  pose proof (set_slug_loop_effect fuel self n
                (objects_filter_slug_startswith db (slug self)) db
                (query_pk db (slug self))) as Heff.
  destruct (set_slug_loop _ _ _ _ _) as [[] [s1 db']|e1 [s1 db']|];
    try discriminate.
  intros [= <- _]. apply Heff.
Qed.

End SetSlug.

(** ** Page.set_parent *)

Section SetParent.
Import PyStr Pages.

Context {View : Type} `{EqDecision View}.
Variable reverse_page : string -> string.
Variable resolve : string -> View.
Variable page_view : View.

Local Abbreviation set_slug := (set_slug reverse_page resolve page_view).
Local Abbreviation set_parent := (set_parent reverse_page resolve page_view).

Implicit Types (db : DB) (self : Page) (q : option Page).

(** The scan finds nothing: it passes, given fuel for every ancestor. *)
Lemma check_cycle_miss db parent L spk :
  Ancestry db parent L -> spk ∉ pk <$> L ->
  ∀ fuel, check_cycle fuel db spk parent
          = if decide (List.length L ≤ fuel)%nat then Val tt else NoFuel.
Proof.
  induction 1 as [|par next l Hg _ IH]; intros Hni fuel.
  - destruct fuel; reflexivity.
  - rewrite fmap_cons in Hni. apply not_elem_of_cons in Hni as [Hne Hni].
    destruct fuel as [|fuel]; cbn [check_cycle List.length];
      rewrite bool_decide_eq_false_2 by congruence.
    + destruct (decide _); [lia|reflexivity].
    + rewrite Hg, (IH Hni).
      destruct (decide (List.length l ≤ fuel)%nat),
        (decide (S (List.length l) ≤ S fuel)%nat); (reflexivity || lia).
Qed.

(** The scan meets the page's key: it raises, unless fuel runs out
    first. *)
Lemma check_cycle_hit db parent L spk :
  Ancestry db parent L -> spk ∈ pk <$> L ->
  ∀ fuel, check_cycle fuel db spk parent = Exc AttributeError ∨
          (check_cycle fuel db spk parent = NoFuel ∧ (fuel < List.length L)%nat).
Proof.
  induction 1 as [|par next l Hg _ IH]; intros Hin fuel.
  - now apply elem_of_nil in Hin.
  - rewrite fmap_cons in Hin. destruct (decide (pk par = spk)) as [Heq|Hne].
    + left. destruct fuel; cbn [check_cycle];
        now rewrite bool_decide_eq_true_2.
    + apply elem_of_cons in Hin as [Heq|Hin]; [congruence|].
      destruct fuel as [|fuel]; cbn [check_cycle List.length];
        rewrite bool_decide_eq_false_2 by done.
      * right. split; [reflexivity|lia].
      * rewrite Hg. destruct (IH Hin fuel) as [E|[E Hlt]]; rewrite E;
          [now left|right; split; [reflexivity|lia]].
Qed.

Lemma parent_stored_get_parent db self :
  parent_stored db self -> ∃ old, get_parent db self = Val old.
Proof.
  unfold parent_stored, get_parent, fetch.
  destruct (parent_id self) as [i|]; [|eauto].
  intros [r ->]. simpl. eauto.
Qed.

Lemma first_save_fields_pk self : pk (first_save_fields self) = pk self.
Proof. unfold first_save_fields. now destruct (pk self) eqn:E. Qed.

Lemma first_save_fields_parent_id self :
  parent_id (first_save_fields self) = parent_id self.
Proof. unfold first_save_fields. now destruct (pk self). Qed.

Lemma first_save_fields_slug self :
  slug (first_save_fields self) = slug self.
Proof. unfold first_save_fields. now destruct (pk self). Qed.

(** What [set_parent] does on a forest, at every fuel. *)
Lemma set_parent_spec db self q old L ks :
  forest db -> get_parent db self = Val old ->
  Ancestry db q L -> pk <$> L = Some <$> ks ->
  Path (parents db) (q ≫= pk) ks ->
  ∃ N, ∀ fuel,
    if decide (pk self ∈ pk <$> L)
    then set_parent fuel q self db = Raised AttributeError (self, db) ∨
         (set_parent fuel q self db = OutOfFuel ∧ (fuel < N)%nat)
    else match set_parent fuel q self db with
         | Returned _ (self', db') => moved q self db self' db' ∧ forest db'
         | Raised _ _ => False
         | OutOfFuel => (fuel < N)%nat
         end.
Proof.
  intros HF Hold Ha Hlk Hp.
  destruct (decide (pk self ∈ pk <$> L)) as [Hin|Hni].
  { exists (List.length L). intros fuel. unfold Pages.set_parent.
    rewrite Hold.
    destruct (check_cycle_hit db q L (pk self) Ha Hin fuel) as [E|[E Hlt]];
      rewrite E; [now left|now right]. }
  set (key := default (fresh (dom (rows db))) (pk self)).
  set (self1 := with_parent_id (q ≫= pk) self).
  set (ts := join " / " (reverse (title <$> L) ++ [title self1])%list).
  set (saved := with_titles (Some ts) (first_save_fields self1)).
  set (self2 := with_pk (Some key) saved).
  set (db1 := mkDB (<[key := self2]> (rows db)) (writes db ++ [key])%list).
  assert (Hbs : base_save saved db = (self2, db1)).
  { unfold base_save, self2, db1, key. simpl.
    now rewrite first_save_fields_pk. }
  assert (Hpar2 : parent_id self2 = q ≫= pk).
  { unfold self2, saved. simpl. now rewrite first_save_fields_parent_id. }
  assert (Hkey : key ∉ ks).
  { intros Hk. unfold key. destruct (pk self) as [i|] eqn:Epk; simpl in *.
    - apply Hni. rewrite Hlk. now apply list_elem_of_fmap_2.
    - destruct (Path_keys _ _ _ _ Hp Hk) as [o Ho].
      rewrite parents_lookup in Ho.
      destruct (rows db !! key) as [r|] eqn:Er; [|discriminate].
      apply (is_fresh (dom (rows db))). fold key.
      apply elem_of_dom. now rewrite Er. }
  assert (Hm1 : parents db1 = <[key := q ≫= pk]> (parents db)).
  { unfold parents, db1. simpl. now rewrite fmap_insert, Hpar2. }
  assert (HF1 : forest db1).
  { unfold forest. rewrite Hm1. eapply Forest_insert; eauto. }
  destruct (set_slug_forest reverse_page resolve page_view db1 HF1)
    as [N1 HN1].
  exists (List.length L `max` N1)%nat. intros fuel.
  unfold Pages.set_parent. rewrite Hold.
  rewrite (check_cycle_miss db q L (pk self) Ha Hni).
  destruct (decide (List.length L ≤ fuel)%nat) as [Hfuel|]; [|lia].
  fold self1. rewrite (save_with_spec db q L self1 fuel Ha).
  destruct (decide (List.length L ≤ fuel)%nat) as [_|]; [|done].
  fold ts saved. rewrite Hbs.
  assert (Hdone : moved q self db self2 db1 ∧ forest db1).
  { split; [|done]. split; [done|]. exists key, []. repeat split; try done.
    intros j Hj. unfold key. now rewrite Hj. }
  assert (Hslug : ∀ n,
    match set_slug fuel n self2 db1 with
    | Returned _ (self', db') => moved q self db self' db' ∧ forest db'
    | Raised _ _ => False
    | OutOfFuel => (fuel < List.length L `max` N1)%nat
    end).
  { intros n. specialize (HN1 self2 n fuel).
    destruct (set_slug fuel n self2 db1) as [[] [s db']|e [s db']|];
      [|done|lia].
    destruct HN1 as (-> & Hpars & ws & Hw). split.
    - split; [done|]. exists key, ws. repeat split.
      + intros j Hj. unfold key. now rewrite Hj.
      + now rewrite Hpars.
      + rewrite Hw. unfold db1. simpl. now rewrite <- app_assoc.
    - unfold forest. rewrite Hpars. exact HF1. }
  destruct (truthy (slug self)); [|exact Hdone].
  destruct (negb _); [apply Hslug|].
  destruct (startswith _ _); [apply Hslug|exact Hdone].
Qed.

(** C1: on a store that is a forest, for a page whose own parent can be
    loaded and a candidate parent taken from the store (or none),
    [Page.set_parent] raises exactly when the page's key is the key of the
    candidate or of one of the pages met by following the candidate's
    parents; otherwise it returns, the page then points at the candidate
    and has been saved with that pointer. *)
Theorem set_parent_raises_iff (db : DB) (self : Page) (q : option Page) :
  forest db -> attached db q -> parent_stored db self ->
  ∃ L, Ancestry db q L ∧
    ((∃ fuel e s, set_parent fuel q self db = Raised e s)
     <-> pk self ∈ pk <$> L) ∧
    (pk self ∈ pk <$> L ->
     ∃ N, ∀ fuel, (N ≤ fuel)%nat ->
       set_parent fuel q self db = Raised AttributeError (self, db)) ∧
    (pk self ∉ pk <$> L ->
     ∃ N, ∀ fuel, (N ≤ fuel)%nat ->
       ∃ self' db', set_parent fuel q self db = Returned tt (self', db') ∧
                    moved q self db self' db').
Proof.
  intros HF Hq Hst.
  destruct (attached_Ancestry db q HF Hq) as (L & ks & Ha & Hlk & Hp).
  destruct (parent_stored_get_parent db self Hst) as [old Hold].
  destruct (set_parent_spec db self q old L ks HF Hold Ha Hlk Hp) as [N HN].
  exists L. split; [done|]. split; [split|split].
  - intros (fuel & e & s & E). specialize (HN fuel).
    destruct (decide (pk self ∈ pk <$> L)) as [|_]; [done|].
    now rewrite E in HN.
  - intros Hin. exists N, AttributeError, (self, db). specialize (HN N).
    destruct (decide (pk self ∈ pk <$> L)) as [_|]; [|done].
    destruct HN as [E|[_ Hlt]]; [done|lia].
  - intros Hin. exists N. intros fuel Hfuel. specialize (HN fuel).
    destruct (decide (pk self ∈ pk <$> L)) as [_|]; [|done].
    destruct HN as [E|[_ Hlt]]; [done|lia].
  - intros Hni. exists N. intros fuel Hfuel. specialize (HN fuel).
    destruct (decide (pk self ∈ pk <$> L)) as [|_]; [done|].
    destruct (set_parent fuel q self db) as [[] [s db']|e [s db']|];
      [|done|lia].
    exists s, db'. split; [done|apply HN].
Qed.


(** C9: when [Page.set_parent] raises the cycle error, the instance and
    the store are exactly what they were before the call: no field of the
    page changed, no row changed and nothing was saved. *)
Theorem set_parent_cycle_error_no_effect (fuel : nat) (db : DB) (self : Page)
    (q : option Page) (s : Page * DB) :
  set_parent fuel q self db = Raised AttributeError s ->
  s = (self, db) ∧ s.1 = self ∧ rows s.2 = rows db ∧ writes s.2 = writes db.
Proof.
  intros Hrun. assert (s = (self, db)) as ->; [|done].
  revert Hrun. unfold Pages.set_parent.
  destruct (get_parent db self) as [old|e|]; [|now intros [= _ <-]|done].
  destruct (check_cycle _ _ _ _) as [[]|e|]; [|now intros [= _ <-]|done].
  set (self1 := with_parent_id _ self).
  destruct (save_with_cases (Val q) fuel self1 db) as [E|[E|[ts E]]];
    try done; rewrite E; try done.
  destruct (base_save _ db) as [self2 db1].
  assert (Hslug : ∀ n, set_slug fuel n self2 db1 = Raised AttributeError s ->
                       s = (self, db)).
  { intros n Hn. now apply set_slug_Raised in Hn. }
  destruct (truthy _); [|done].
  destruct (negb _); [apply Hslug|].
  destruct (startswith _ _); [apply Hslug|done].
Qed.

End SetParent.

(** ** Page.get_ascendants *)

Section Ascendants.
Import PyStr Pages.

Implicit Types (db : DB) (self : PageObj).

Lemma ascend_spec db l :
  ∀ child acc fuel,
    Ancestry db (Some child) (child :: l) ->
    ascend fuel db child acc =
    if decide (List.length l ≤ fuel)%nat
    then Returned tt (acc ++ l)%list else OutOfFuel.
Proof.
  induction l as [|a l IH]; intros child acc fuel Ha;
    inversion Ha as [|? next ? Hg Hl]; subst.
  - inversion Hl; subst. apply get_parent_Val_None in Hg.
    destruct fuel; simpl; rewrite Hg, app_nil_r; reflexivity.
  - inversion Hl as [|? next' ? Hg' Hl']; subst.
    apply get_parent_Val_Some in Hg as (i & Hi & Hf).
    destruct fuel as [|fuel]; cbn [ascend List.length]; rewrite Hi.
    + destruct (decide _); [lia|reflexivity].
    + rewrite Hf, (IH a (acc ++ [a])%list fuel Hl), <- app_assoc. simpl.
      destruct (decide (List.length l ≤ fuel)%nat),
        (decide (S (List.length l) ≤ S fuel)%nat); (reflexivity || lia).
Qed.

(** C5: [Page.get_ascendants] returns the empty list for a page whose
    [parent_id] is unset.  For a page with a parent and no [_ascendants]
    attribute yet, whose ancestors from the parent up to the root are [l],
    and with [with_ascendants_for_slug] behaving as the method expects, it
    returns [l] and leaves [l] in the attribute; a later call on that
    object returns [l] again whatever the fuel, the store and the manager
    are, so nothing is recomputed. *)
Theorem get_ascendants_cached
    (mgr : DB -> string -> option positive -> list PageObj)
    (db : DB) (self : PageObj) (for_user : option positive) :
  (parent_id self = None ->
   ∀ fuel, get_ascendants mgr fuel for_user self db = Returned [] self) ∧
  (∀ i l, parent_id self = Some i -> ascendants_attr self = None ->
     Ancestry db (Some (page_of self)) (page_of self :: l) ->
     (truthy (slug self) = true -> single_query_ok mgr db self for_user l) ->
     l ≠ [] ∧
     ∀ fuel, (List.length l ≤ fuel)%nat ->
       get_ascendants mgr fuel for_user self db
       = Returned l (mkObj self (Some l)) ∧
       ∀ mgr' fuel' for_user' db',
         get_ascendants mgr' fuel' for_user' (mkObj self (Some l)) db'
         = Returned l (mkObj self (Some l))).
Proof.
  split.
  - intros Hnone fuel. unfold get_ascendants. now rewrite Hnone.
  - intros i l Hi Hattr Ha Hmgr.
    assert (Hne : l ≠ []).
    { intros ->. inversion Ha as [|? next ? Hg Hl]; subst.
      inversion Hl; subst. apply get_parent_Val_None in Hg. congruence. }
    split; [exact Hne|]. intros fuel Hfuel. split.
    + unfold get_ascendants. rewrite Hi, Hattr.
      pose proof (ascend_spec db l self [] fuel Ha) as Hasc.
      destruct (decide _) as [_|]; [|done]. simpl in Hasc.
      destruct (truthy (slug self)) eqn:Hslug.
      * destruct (Hmgr eq_refl) as (first & rest & -> & [->| ->]).
        { now rewrite Hasc. }
        { destruct l; [done|reflexivity]. }
      * now rewrite Hasc.
    + intros mgr' fuel' for_user' db'. unfold get_ascendants. simpl.
      rewrite Hi. destruct l; [done|reflexivity].
Qed.

End Ascendants.

(** ** The moderation workflow *)

Section ModerationFacts.
Import PyStr Moderation.

(** C7: [send_pending_email] hands exactly one mail to [send_mail]; its
    recipients are the email addresses, without repetition, of the
    publishers to notify (the "Publisher" users, restricted to the owning
    group when it is set and has publishers); its body is the admin URL of
    the item on the domain of the current site; and the publishers are
    what it returns. *)
Theorem send_pending_email_notifies
    (admin_url_for : string -> string -> option positive -> string)
    (env : Env) (self : Moderated) (outbox : list Mail) :
  ∃ mail,
    send_pending_email admin_url_for env self outbox
    = (publishers_to_notify env self, (outbox ++ [mail])%list) ∧
    body mail = "http://" +:+ site_domain env +:+ admin_url admin_url_for self ∧
    NoDup (recipient_list mail) ∧
    (∀ a, a ∈ recipient_list mail
          <-> ∃ u, u ∈ publishers_to_notify env self ∧ email u = a) ∧
    (∀ u, u ∈ publishers_to_notify env self ->
          u ∈ users env ∧ in_group_named env "Publisher" u) ∧
    (∀ g, owning_group self = Some g ->
          (∃ u, u ∈ users env ∧ in_group_named env "Publisher" u ∧
                g ∈ groups u) ->
          ∀ u, u ∈ publishers_to_notify env self
               <-> u ∈ users env ∧ in_group_named env "Publisher" u ∧
                   g ∈ groups u) ∧
    ((owning_group self = None ∨
      ∃ g, owning_group self = Some g ∧
           ¬ ∃ u, u ∈ users env ∧ in_group_named env "Publisher" u ∧
                  g ∈ groups u) ->
     ∀ u, u ∈ publishers_to_notify env self
          <-> u ∈ users env ∧ in_group_named env "Publisher" u).
Proof.
  assert (Hpub : ∀ u, u ∈ filter (in_group_named env "Publisher") (users env)
                       <-> u ∈ users env ∧ in_group_named env "Publisher" u).
  { intros u. rewrite list_elem_of_filter. tauto. }
  assert (Hown : ∀ g u,
            u ∈ filter (λ u, in_group_named env "Publisher" u ∧ g ∈ groups u)
                  (users env)
            <-> u ∈ users env ∧ in_group_named env "Publisher" u ∧
                g ∈ groups u).
  { intros g u. rewrite list_elem_of_filter. tauto. }
  assert (Hsame :
    qs_or
      match owning_group self with
      | Some g =>
          filter_groups_name env "Publisher" (filter_groups g (users env))
      | None => []
      end (filter_groups_name env "Publisher" (users env))
    = publishers_to_notify env self).
  { unfold publishers_to_notify, filter_groups_name, filter_groups, qs_or.
    destruct (owning_group self) as [g|]; [|reflexivity].
    rewrite list_filter_filter.
    match goal with
    | |- match ?a with [] => _ | _ :: _ => _ end
         = (if decide (?b = []) then _ else _) =>
        change a with b; generalize b
    end.
    intros [|u us]; destruct (decide _); congruence. }
  unfold send_pending_email. cbv zeta. rewrite Hsame.
  eexists. split; [|split; [|split; [|split; [|split; [|split]]]]].
  - reflexivity.
  - reflexivity.
  - apply NoDup_remove_dups.
  - intros a. simpl. rewrite elem_of_remove_dups, list_elem_of_fmap.
    split; intros (u & H1 & H2); exists u; auto.
  - intros u. unfold publishers_to_notify.
    destruct (owning_group self) as [g|]; [|apply Hpub].
    destruct (decide _); [apply Hpub|]. rewrite Hown. tauto.
  - intros g Hg (u0 & Hu0) u. unfold publishers_to_notify. rewrite Hg.
    destruct (decide _) as [E|_]; [|apply Hown].
    apply Hown in Hu0. rewrite E in Hu0. now apply elem_of_nil in Hu0.
  - intros Hcase u. unfold publishers_to_notify.
    destruct Hcase as [->|(g & -> & Hnone)]; [apply Hpub|].
    destruct (decide _) as [_|E]; [apply Hpub|].
    match type of E with
    | ?b ≠ [] => destruct b as [|u0 us] eqn:E0; [done|]
    end.
    exfalso. apply Hnone. exists u0. apply Hown. rewrite E0. now left.
Qed.

(** C8: the status shown for a moderated item.  A draft is "pending" when
    its approval is [PENDING], "rejected" when it is [REJECTED] and "draft"
    otherwise; an item that is not a draft is "published" when its publish
    date is before the current time and "approved", to be published,
    otherwise. *)
Theorem current_status_cases (CONTENT_STATUS_DRAFT : Z)
    (localize : Z -> string) (now : Z) (self : Moderated) :
  let cs := current_status CONTENT_STATUS_DRAFT localize now self in
  (status self = CONTENT_STATUS_DRAFT ->
   (approval self = Some PENDING -> cs = ("pending", "Pending approval")) ∧
   (approval self = Some REJECTED -> cs = ("rejected", "Rejected")) ∧
   (approval self ≠ Some PENDING -> approval self ≠ Some REJECTED ->
    cs = ("draft", "Draft"))) ∧
  (status self ≠ CONTENT_STATUS_DRAFT ->
   ((publish_date self < now)%Z ->
    cs = ("published",
          "Approved, published on " +:+ localize (publish_date self))) ∧
   (¬ (publish_date self < now)%Z ->
    cs = ("approved",
          "Approved, to be published on " +:+ localize (publish_date self)))).
Proof.
  intros cs. subst cs. unfold current_status. split.
  - intros Hd. rewrite bool_decide_eq_true_2 by done. repeat split.
    + intros Hp. now rewrite bool_decide_eq_true_2.
    + intros Hr. rewrite bool_decide_eq_false_2.
      * now rewrite bool_decide_eq_true_2.
      * rewrite Hr. discriminate.
    + intros Hp Hr. now rewrite !bool_decide_eq_false_2.
  - intros Hd. rewrite bool_decide_eq_false_2 by done. split.
    + intros Hlt. now rewrite bool_decide_eq_true_2.
    + intros Hge. now rewrite bool_decide_eq_false_2.
Qed.

End ModerationFacts.

(** ** The theorems at work on the sample site *)

Section Instances.
Import PyStr Moderation Pages.

Local Abbreviation set_slug_s :=
  (set_slug Sample.reverse_page Sample.resolve Sample.page_view).
Local Abbreviation set_parent_s :=
  (set_parent Sample.reverse_page Sample.resolve Sample.page_view).
Local Abbreviation overridden_s :=
  (overridden Sample.reverse_page Sample.resolve Sample.page_view).

Lemma sample_forest : forest Sample.db.
Proof. apply forestb_sound. vm_compute. reflexivity. Qed.

Lemma sample_attached : attached Sample.db (Some Sample.team).
Proof. apply attachedb_sound. vm_compute. reflexivity. Qed.

Lemma sample_ancestry :
  Ancestry Sample.db (Some Sample.contact)
    [Sample.contact; Sample.about; Sample.home].
Proof. repeat (econstructor; [reflexivity|]). constructor. Qed.

Lemma sample_about_ancestry :
  Ancestry Sample.db (Some Sample.about) [Sample.about; Sample.home].
Proof. repeat (econstructor; [reflexivity|]). constructor. Qed.

(** Moving About (and so Team) under Blog: the slugs and titles that end
    up in the store. *)
Example move_about_under_blog :
  match set_parent_s 5 (Some Sample.blog) Sample.about Sample.db with
  | Returned _ (self', db') =>
      slug self' = "blog/about" ∧
      (slug <$> rows db' !! 2%positive) = Some "blog/about" ∧
      (slug <$> rows db' !! 3%positive) = Some "blog/about/team" ∧
      (titles <$> rows db' !! 3%positive) = Some (Some "Blog / About / Team") ∧
      writes db' = [2%positive; 3%positive; 2%positive]
  | _ => False
  end.
Proof. vm_compute. repeat split. Qed.

(** Fuel that does not reach the root is reported as such. *)
Example save_out_of_fuel : save 1 Sample.contact Sample.db = OutOfFuel.
Proof. reflexivity. Qed.



(** Saving the new Contact page under About. *)
Lemma save_sets_titles_witness :
  Ancestry Sample.db (Some Sample.contact)
    [Sample.contact; Sample.about; Sample.home] ∧
  (2 ≤ 2)%nat ∧
  ∃ self' db' i,
    save 2 Sample.contact Sample.db = Returned tt (self', db') ∧
    titles self' = Some "Home / About / Contact" ∧
    content_model self' = Some "richtextpage" ∧
    pk self' = Some i ∧ rows db' !! i = Some self'.
Proof.
  split; [exact sample_ancestry|]. split; [lia|].
  destruct (save_sets_titles Sample.db Sample.contact
              [Sample.about; Sample.home] 2 sample_ancestry)
    as (s & d & i & E & Ht & Hc & Hpk & _ & Hrow & _); [simpl; lia|].
  exists s, d, i. repeat split; assumption.
Defined.

(** The slug of About, built from the slug of Home. *)
Lemma get_slug_recursive_witness :
  parent_id Sample.about = Some 1%positive ∧
  fetch Sample.db 1 = Some Sample.home ∧
  get_slug lower Sample.db Sample.about = Val "home/about".
Proof.
  split; [reflexivity|]. split; [reflexivity|].
  apply (proj1 (proj2 (get_slug_recursive lower Sample.db Sample.about))
           1%positive Sample.home); reflexivity.
Defined.

(** Renaming About to "company". *)
Lemma set_slug_rewrites_witness :
  forest Sample.db ∧
  ∃ N, ∀ fuel, (N ≤ fuel)%nat ->
    ∃ db' ws,
      set_slug_s fuel "company" Sample.about Sample.db
      = Returned tt (with_slug "company" Sample.about, db') ∧
      writes db' = (writes Sample.db ++ ws)%list ∧
      3%positive ∈ ws ∧
      ∃ r', rows db' !! 3%positive = Some r' ∧ slug r' = "company/team".
Proof.
  split; [exact sample_forest|].
  destruct (set_slug_rewrites Sample.reverse_page Sample.resolve
              Sample.page_view Sample.db Sample.about "company" sample_forest)
    as [N HN].
  exists N. intros fuel Hfuel.
  destruct (HN fuel Hfuel) as (db' & ws & E & Hw & Hrows).
  destruct (Hrows 3%positive Sample.team) as (Hin & r' & Hr' & Hs & _);
    [reflexivity..|].
  exists db', ws. repeat split; try assumption. exists r'. split; assumption.
Defined.

(** Renaming About leaves Blog and Home alone. *)
Lemma set_slug_frame_witness :
  after (set_slug_s 5 "company" Sample.about Sample.db) (λ s,
    ∃ ws, writes s.2 = (writes Sample.db ++ ws)%list ∧
      (rows s.2 !! 4%positive = rows Sample.db !! 4%positive ∧
       4%positive ∉ ws) ∧
      (rows s.2 !! 1%positive = rows Sample.db !! 1%positive ∧
       1%positive ∉ ws)).
Proof.
  pose proof (set_slug_frame Sample.reverse_page Sample.resolve
                Sample.page_view 5 Sample.db Sample.about "company") as H.
  destruct (set_slug_s 5 "company" Sample.about Sample.db)
    as [[] s|e s|]; simpl in *; [| |exact I];
    destruct H as (ws & Hw & Hfr); exists ws; (split; [exact Hw|]);
    (split; apply Hfr; intros r [= <-]; [right|left]; reflexivity).
Defined.

(** Moving Home under Team would close a cycle; moving it nowhere is
    fine. *)
Lemma set_parent_raises_iff_witness :
  forest Sample.db ∧ attached Sample.db (Some Sample.team) ∧
  parent_stored Sample.db Sample.home ∧
  ∃ L, Ancestry Sample.db (Some Sample.team) L ∧
    ((∃ fuel e s, set_parent_s fuel (Some Sample.team) Sample.home Sample.db
                  = Raised e s)
     <-> pk Sample.home ∈ pk <$> L) ∧
    (pk Sample.home ∈ pk <$> L ->
     ∃ N, ∀ fuel, (N ≤ fuel)%nat ->
       set_parent_s fuel (Some Sample.team) Sample.home Sample.db
       = Raised AttributeError (Sample.home, Sample.db)) ∧
    (pk Sample.home ∉ pk <$> L ->
     ∃ N, ∀ fuel, (N ≤ fuel)%nat ->
       ∃ self' db',
         set_parent_s fuel (Some Sample.team) Sample.home Sample.db
         = Returned tt (self', db') ∧
         moved (Some Sample.team) Sample.home Sample.db self' db').
Proof.
  split; [exact sample_forest|]. split; [exact sample_attached|].
  split; [exact I|].
  apply (set_parent_raises_iff Sample.reverse_page Sample.resolve
           Sample.page_view Sample.db Sample.home (Some Sample.team)
           sample_forest sample_attached I).
Defined.


Lemma set_parent_cycle_error_no_effect_witness :
  set_parent_s 5 (Some Sample.team) Sample.home Sample.db
  = Raised AttributeError (Sample.home, Sample.db) ∧
  (Sample.home, Sample.db) = (Sample.home, Sample.db) ∧
  (Sample.home, Sample.db).1 = Sample.home ∧
  rows (Sample.home, Sample.db).2 = rows Sample.db ∧
  writes (Sample.home, Sample.db).2 = writes Sample.db.
Proof.
  assert (E : set_parent_s 5 (Some Sample.team) Sample.home Sample.db
              = Raised AttributeError (Sample.home, Sample.db))
    by (vm_compute; reflexivity).
  split; [exact E|].
  exact (set_parent_cycle_error_no_effect Sample.reverse_page Sample.resolve
           Sample.page_view 5 Sample.db Sample.home (Some Sample.team)
           (Sample.home, Sample.db) E).
Defined.

(** The ascendants of About, found by walking up and then cached. *)
Lemma get_ascendants_cached_witness :
  parent_id (mkObj Sample.about None) = Some 1%positive ∧
  ascendants_attr (mkObj Sample.about None) = None ∧
  Ancestry Sample.db (Some Sample.about) [Sample.about; Sample.home] ∧
  single_query_ok Sample.no_single_query Sample.db Sample.about None
    [Sample.home] ∧
  get_ascendants Sample.no_single_query 1 None (mkObj Sample.about None)
    Sample.db
  = Returned [Sample.home] (mkObj Sample.about (Some [Sample.home])) ∧
  get_ascendants Sample.no_single_query 0 None
    (mkObj Sample.about (Some [Sample.home])) Sample.db
  = Returned [Sample.home] (mkObj Sample.about (Some [Sample.home])).
Proof.
  assert (Hq : single_query_ok Sample.no_single_query Sample.db Sample.about
                 None [Sample.home]).
  { exists (mkObj Sample.about (Some [])), []. split; [reflexivity|now left]. }
  split; [reflexivity|]. split; [reflexivity|].
  split; [exact sample_about_ancestry|]. split; [exact Hq|].
  destruct (proj2 (get_ascendants_cached Sample.no_single_query Sample.db
                     (mkObj Sample.about None) None)
              1%positive [Sample.home] eq_refl eq_refl sample_about_ancestry
              (λ _, Hq)) as [_ Hrun].
  destruct (Hrun 1%nat) as [E1 E2]; [simpl; lia|].
  split; [exact E1|apply E2].
Defined.

(** The news desk has one publisher, Ann: she alone is notified. *)
Lemma send_pending_email_notifies_witness :
  ∃ mail,
    send_pending_email Sample.admin_url_for Sample.env Sample.draft_item []
    = ([Sample.ann], [mail]) ∧
    body mail = "http://example.org/admin/moderatedpage/change/" ∧
    NoDup (recipient_list mail).
Proof.
  destruct (send_pending_email_notifies Sample.admin_url_for Sample.env
              Sample.draft_item []) as (mail & E & Hb & Hnd & _).
  exists mail. split; [exact E|]. split; [exact Hb|exact Hnd].
Defined.

Lemma current_status_cases_witness :
  status Sample.draft_item = 1%Z ∧
  approval Sample.draft_item = Some PENDING ∧
  current_status 1 Sample.localize 2000 Sample.draft_item
  = ("pending", "Pending approval").
Proof.
  split; [reflexivity|]. split; [reflexivity|].
  apply (proj1 (proj1 (current_status_cases 1 Sample.localize 2000
                         Sample.draft_item) eq_refl) eq_refl).
Defined.

End Instances.

(** * Further properties of the page tree *)

(** ** What set_parent does to slugs *)

Section SetParentSlugs.
Import PyStr Pages.

Context {View : Type} `{EqDecision View}.
Variable reverse_page : string -> string.
Variable resolve : string -> View.
Variable page_view : View.

Local Abbreviation overridden := (overridden reverse_page resolve page_view).
Local Abbreviation set_slug := (set_slug reverse_page resolve page_view).
Local Abbreviation set_slug_loop :=
  (set_slug_loop reverse_page resolve page_view).
Local Abbreviation set_parent := (set_parent reverse_page resolve page_view).

Implicit Types (db : DB) (self : Page) (q : option Page).

(** What a returned [set_slug] has done, on any store. *)
Lemma set_slug_Returned fuel n self db s db' :
  set_slug fuel n self db = Returned tt (s, db') ->
  s = with_slug n self ∧
  (∃ ws, writes db' = (writes db ++ ws)%list) ∧
  (∀ i, (∀ r, rows db !! i = Some r ->
              startswith (slug r) (slug self) = false ∨ overridden r = true) ->
        rows db' !! i = rows db !! i) ∧
  (∀ i r, rows db !! i = Some r ->
          startswith (slug r) (slug self) = true -> overridden r = false ->
          ∃ ts, rows db' !! i
                = Some (with_titles (Some ts)
                          (renamed n (slug self) (with_pk (Some i) r)))).
Proof.
  unfold Pages.set_slug.
  set (pages := objects_filter_slug_startswith db (slug self)).
  pose proof (set_slug_loop_effect reverse_page resolve page_view fuel self n
                pages db (query_pk db (slug self))) as Heff.
  pose proof (set_slug_loop_written reverse_page resolve page_view fuel self n
                pages db) as Hwr.
  destruct (set_slug_loop fuel self n pages db) as [[] [s1 db1]|e [s1 db1]|];
    try discriminate.
  intros [= <- <-]. destruct Heff as (-> & Hw & Hr).
  split; [reflexivity|]. split; [eauto|]. split.
  - intros i Hi. apply Hr.
    intros (page & Hin & Hpk & Ho)%elem_of_saved_keys.
    apply elem_of_query in Hin as (j & r & Hj & Hs & ->).
    injection Hpk as ->. destruct (Hi r Hj) as [E|E]; [congruence|].
    change (overridden (with_pk (Some i) r)) with (overridden r) in Ho.
    congruence.
  - intros i r Hi Hs Ho.
    apply (Hwr self db1 (query_pk db (slug self)) (query_NoDup db (slug self))
             eq_refl (with_pk (Some i) r) i); [|exact Ho|reflexivity].
    apply elem_of_query. eauto.
Qed.

(** [set_parent] once the scan has passed: the page is saved under the
    new parent, and then, depending on the slugs, [set_slug] runs on the
    saved instance or nothing more happens. *)
Lemma set_parent_returns db self q old L :
  forest db -> attached db q -> get_parent db self = Val old ->
  Ancestry db q L -> pk self ∉ pk <$> L ->
  ∃ N key self2 db1,
    pk self2 = Some key ∧ slug self2 = slug self ∧
    parent_id self2 = q ≫= pk ∧
    (∀ j, pk self = Some j -> key = j) ∧
    (pk self = None -> rows db !! key = None) ∧
    rows db1 = <[key := self2]> (rows db) ∧
    writes db1 = (writes db ++ [key])%list ∧
    ∀ fuel, (N ≤ fuel)%nat ->
      set_parent fuel q self db
      = (if truthy (slug self) then
           if negb (truthy (from_option slug "" old)) then
             set_slug fuel (join "/" [from_option slug "" q; slug self2])
               self2 db1
           else if startswith (slug self2) (from_option slug "" old) then
             set_slug fuel
               (strip "/"
                  (replace_first (from_option slug "" old)
                     (from_option slug "" q) (slug self2)))
               self2 db1
           else Returned tt (self2, db1)
         else Returned tt (self2, db1)) ∧
      ∀ n, ∃ db', set_slug fuel n self2 db1
                  = Returned tt (with_slug n self2, db').
Proof.
  intros HF Hq Hold Ha Hni.
  destruct (attached_Ancestry db q HF Hq) as (L' & ks & Ha' & Hlk & Hp).
  pose proof (Ancestry_det _ _ _ _ Ha' Ha) as ->.
  set (key := default (fresh (dom (rows db))) (pk self)).
  set (self1 := with_parent_id (q ≫= pk) self).
  set (ts := join " / " (reverse (title <$> L) ++ [title self1])%list).
  set (saved := with_titles (Some ts) (first_save_fields self1)).
  set (self2 := with_pk (Some key) saved).
  set (db1 := mkDB (<[key := self2]> (rows db)) (writes db ++ [key])%list).
  assert (Hbs : base_save saved db = (self2, db1)).
  { unfold base_save, self2, db1, key. simpl.
    now rewrite first_save_fields_pk. }
  assert (Hpar2 : parent_id self2 = q ≫= pk).
  { unfold self2, saved. simpl. now rewrite first_save_fields_parent_id. }
  assert (Hslug2 : slug self2 = slug self).
  { unfold self2, saved. simpl. now rewrite first_save_fields_slug. }
  assert (Hfresh : pk self = None -> rows db !! key = None).
  { intros Hnone. unfold key. rewrite Hnone. simpl.
    apply not_elem_of_dom, is_fresh. }
  assert (Hkey : key ∉ ks).
  { intros Hk. destruct (pk self) as [i|] eqn:Epk.
    - apply Hni. rewrite Hlk. now apply list_elem_of_fmap_2.
    - destruct (Path_keys _ _ _ _ Hp Hk) as [o Ho].
      rewrite parents_lookup, (Hfresh eq_refl) in Ho. discriminate. }
  assert (HF1 : forest db1).
  { unfold forest.
    replace (parents db1) with (<[key := q ≫= pk]> (parents db)).
    - eapply Forest_insert; eauto.
    - unfold parents, db1. simpl. now rewrite fmap_insert, Hpar2. }
  destruct (set_slug_forest reverse_page resolve page_view db1 HF1)
    as [N1 HN1].
  exists (List.length L `max` N1)%nat, key, self2, db1.
  split; [reflexivity|]. split; [exact Hslug2|]. split; [exact Hpar2|].
  split; [intros j Hj; unfold key; now rewrite Hj|].
  split; [exact Hfresh|]. split; [reflexivity|]. split; [reflexivity|].
  intros fuel Hfuel. split.
  - unfold Pages.set_parent. rewrite Hold.
    rewrite (check_cycle_miss db q L (pk self) Ha Hni).
    destruct (decide (List.length L ≤ fuel)%nat) as [Hle|]; [|lia].
    fold self1. rewrite (save_with_spec db q L self1 fuel Ha).
    destruct (decide (List.length L ≤ fuel)%nat) as [_|]; [|done].
    fold ts saved. rewrite Hbs. reflexivity.
  - intros n. specialize (HN1 self2 n fuel).
    destruct (set_slug fuel n self2 db1) as [[] [s db']|e [s db']|];
      [|done|lia].
    destruct HN1 as (-> & _). eauto.
Qed.


Lemma stored_key_other db self key i r :
  (∀ j, pk self = Some j -> key = j) ->
  (pk self = None -> rows db !! key = None) ->
  pk self ≠ Some i -> rows db !! i = Some r -> i ≠ key.
Proof.
  intros Hj Hfresh Hne Hi ->. destruct (pk self) as [j|] eqn:E.
  - apply Hne. f_equal. symmetry. now apply Hj.
  - rewrite (Hfresh eq_refl) in Hi. discriminate.
Qed.

(** A page cannot be given a parent that has its own primary key: the call
    raises at once and changes nothing.  This covers the page itself, and
    also any two pages that have not been saved yet, whose keys are both
    [None]. *)
Theorem set_parent_same_key_raises (db : DB) (self parent : Page) (fuel : nat) :
  parent_stored db self -> pk parent = pk self ->
  set_parent fuel (Some parent) self db = Raised AttributeError (self, db).
Proof.
  intros Hst Hpk. destruct (parent_stored_get_parent db self Hst) as [old Hold].
  unfold Pages.set_parent. rewrite Hold.
  destruct fuel; cbn [check_cycle]; now rewrite bool_decide_eq_true_2.
Qed.

(** Moving a page that has a slug and whose old parent has none (a page at
    the root, mostly): the slug becomes the new parent's slug, ["/"] and
    the old slug, so a move to the root puts a ["/"] in front; and the
    other stored pages whose slug starts with the page's old slug and that
    are not overridden get the same prefix, their parent being left as it
    is. *)
Theorem set_parent_root_page_slug (db : DB) (self : Page) (q old : option Page)
    (L : list Page) :
  forest db -> attached db q -> get_parent db self = Val old ->
  from_option slug "" old = "" -> truthy (slug self) = true ->
  Ancestry db q L -> pk self ∉ pk <$> L ->
  ∃ N, ∀ fuel, (N ≤ fuel)%nat ->
    ∃ self' db',
      set_parent fuel q self db = Returned tt (self', db') ∧
      slug self' = from_option slug "" q +:+ "/" +:+ slug self ∧
      ∀ i r, pk self ≠ Some i -> rows db !! i = Some r ->
             startswith (slug r) (slug self) = true -> overridden r = false ->
        ∃ r', rows db' !! i = Some r' ∧
              slug r' = from_option slug "" q +:+ "/" +:+ slug r ∧
              parent_id r' = parent_id r.
Proof.
  intros HF Hq Hold Hos Hs Ha Hni.
  destruct (set_parent_returns db self q old L HF Hq Hold Ha Hni)
    as (N & key & self2 & db1 & Hpk2 & Hslug2 & Hpar2 & Hkj & Hfresh & Hrows
        & Hw & Hrun).
  exists N. intros fuel Hfuel. destruct (Hrun fuel Hfuel) as [E Hss].
  rewrite E, Hs, Hos. cbn [truthy negb].
  destruct (Hss (join "/" [from_option slug "" q; slug self2])) as [db' E2].
  rewrite E2. do 2 eexists. split; [reflexivity|]. split.
  { cbn [Pages.slug with_slug]. now rewrite Hslug2. }
  intros i r Hne Hi Hpre Ho.
  apply set_slug_Returned in E2 as (_ & _ & _ & Hwr).
  destruct (Hwr i r) as [ts Hts].
  - rewrite Hrows, lookup_insert_ne; [exact Hi|].
    intros <-. now apply (stored_key_other db self key key r).
  - now rewrite Hslug2.
  - exact Ho.
  - eexists. split; [exact Hts|]. split; [|reflexivity].
    cbn [Pages.slug with_titles renamed with_slug with_pk]. rewrite Hslug2.
    rewrite (prefix_split _ _ Hpre) at 2.
    unfold join. cbn [String.concat]. now rewrite !append_assoc.
Qed.


(** A page with no slug, or whose slug does not start with the slug of the
    parent it had, is moved without any slug being rewritten: its own row
    is the only one written, so its descendants keep their slugs and their
    [titles], which still name the old ancestors. *)
Theorem set_parent_keeps_slug (db : DB) (self : Page) (q old : option Page)
    (L : list Page) :
  forest db -> attached db q -> get_parent db self = Val old ->
  truthy (slug self) = false ∨
  (truthy (from_option slug "" old) = true ∧
   startswith (slug self) (from_option slug "" old) = false) ->
  Ancestry db q L -> pk self ∉ pk <$> L ->
  ∃ N, ∀ fuel, (N ≤ fuel)%nat ->
    ∃ self' db' key,
      set_parent fuel q self db = Returned tt (self', db') ∧
      slug self' = slug self ∧ parent_id self' = q ≫= pk ∧
      pk self' = Some key ∧
      rows db' = <[key := self']> (rows db) ∧
      writes db' = (writes db ++ [key])%list.
Proof.
  intros HF Hq Hold Hcase Ha Hni.
  destruct (set_parent_returns db self q old L HF Hq Hold Ha Hni)
    as (N & key & self2 & db1 & Hpk2 & Hslug2 & Hpar2 & Hkj & Hfresh & Hrows
        & Hw & Hrun).
  exists N. intros fuel Hfuel. destruct (Hrun fuel Hfuel) as [E _].
  exists self2, db1, key. rewrite E. repeat split; try assumption.
  destruct Hcase as [->|[Hos Hpre]]; [reflexivity|].
  rewrite Hos, Hslug2, Hpre. now destruct (truthy (slug self)).
Qed.

(** Renaming a stored page that has a URL pattern of its own changes the
    slug of the instance only: its row keeps the old slug, so the two
    disagree afterwards. *)
Theorem set_slug_overridden_page (db : DB) (self : Page) (n : string)
    (i : positive) (r : Page) :
  forest db -> pk self = Some i -> rows db !! i = Some r ->
  slug r = slug self -> overridden self = true ->
  ∃ N, ∀ fuel, (N ≤ fuel)%nat ->
    ∃ db', set_slug fuel n self db = Returned tt (with_slug n self, db') ∧
           rows db' !! i = Some r.
Proof.
  intros HF Hpk Hi Hsl Ho.
  destruct (set_slug_forest reverse_page resolve page_view db HF) as [N HN].
  exists N. intros fuel Hfuel. specialize (HN self n fuel).
  destruct (set_slug fuel n self db) as [[] [s db']|e [s db']|] eqn:E;
    [|done|lia].
  destruct HN as (-> & _). exists db'. split; [reflexivity|].
  apply set_slug_Returned in E as (_ & _ & Hfr & _).
  rewrite Hfr; [exact Hi|].
  intros r' Hr'. right. rewrite Hi in Hr'. injection Hr' as <-.
  unfold Pages.overridden in *. now rewrite Hsl.
Qed.

(** Renaming a page to the slug it has changes no slug in the store:
    every stored page is there afterwards with its slug, parent and
    title. *)
Theorem set_slug_same_slug (db : DB) (self : Page) :
  forest db ->
  ∃ N, ∀ fuel, (N ≤ fuel)%nat ->
    ∃ db', set_slug fuel (slug self) self db = Returned tt (self, db') ∧
           ∀ i r, rows db !! i = Some r ->
             ∃ r', rows db' !! i = Some r' ∧ slug r' = slug r ∧
                   parent_id r' = parent_id r ∧ title r' = title r.
Proof.
  intros HF.
  destruct (set_slug_forest reverse_page resolve page_view db HF) as [N HN].
  exists N. intros fuel Hfuel. specialize (HN self (slug self) fuel).
  destruct (set_slug fuel (slug self) self db) as [[] [s db']|e [s db']|] eqn:E;
    [|done|lia].
  destruct HN as (-> & _). exists db'. split.
  { f_equal. f_equal. now destruct self. }
  apply set_slug_Returned in E as (_ & _ & Hfr & Hwr).
  intros i r Hi.
  destruct (startswith (slug r) (slug self)) eqn:Hpre;
    [destruct (overridden r) eqn:Ho|].
  - exists r. rewrite Hfr; [done|]. intros r' Hr'. right. congruence.
  - destruct (Hwr i r Hi Hpre Ho) as [ts Hts]. eexists.
    split; [exact Hts|]. split; [|done].
    cbn [Pages.slug with_titles renamed with_slug with_pk].
    symmetry. now apply prefix_split.
  - exists r. rewrite Hfr; [done|]. intros r' Hr'. left. congruence.
Qed.

End SetParentSlugs.

(** ** Saving again, and reading the ascendants after a move *)

Section SaveAgain.
Import PyStr Pages.

Context {View : Type} `{EqDecision View}.
Variable reverse_page : string -> string.
Variable resolve : string -> View.
Variable page_view : View.

Local Abbreviation set_parent := (set_parent reverse_page resolve page_view).

Implicit Types (db : DB) (self : Page).

(** The pages above a page were all loaded from the store. *)
Lemma Ancestry_loaded db par l a :
  Ancestry db (Some par) (par :: l) -> a ∈ l ->
  ∃ j, pk a = Some j ∧ is_Some (rows db !! j).
Proof.
  revert par. induction l as [|b l IH]; intros par Ha Hin.
  { now apply elem_of_nil in Hin. }
  inversion Ha as [|? next ? Hg Hl]; subst.
  inversion Hl as [|? next' ? Hg' Hl']; subst.
  apply get_parent_Val_Some in Hg as (j & _ & Hf).
  apply elem_of_cons in Hin as [->|Hin]; [|now apply (IH b)].
  destruct (fetch_Some _ _ _ Hf) as [Hpk Hpar]. exists j. split; [done|].
  rewrite parents_lookup in Hpar. destruct (rows db !! j); [eauto|discriminate].
Qed.

(** Writing a row whose key is not among the pages above a page leaves
    what is above the page as it was. *)
Lemma Ancestry_frame db db' key par l :
  (∀ j, j ≠ key -> rows db' !! j = rows db !! j) ->
  Some key ∉ pk <$> l ->
  Ancestry db (Some par) (par :: l) ->
  ∀ par', parent_id par' = parent_id par ->
          Ancestry db' (Some par') (par' :: l).
Proof.
  intros Hrows. revert par. induction l as [|a l IH]; intros par Hni Ha par' Hp;
    inversion Ha as [|? next ? Hg Hl]; subst.
  - inversion Hl; subst. apply get_parent_Val_None in Hg.
    econstructor; [|constructor]. unfold get_parent. now rewrite Hp, Hg.
  - inversion Hl as [|? next' ? Hg' Hl']; subst.
    apply get_parent_Val_Some in Hg as (j & Hj & Hf).
    rewrite fmap_cons in Hni. apply not_elem_of_cons in Hni as [Hne Hni].
    destruct (fetch_Some _ _ _ Hf) as [Hpk _].
    assert (j ≠ key) by congruence.
    econstructor; [|apply (IH a Hni Hl a eq_refl)].
    unfold get_parent. rewrite Hp, Hj.
    rewrite (fetch_same_rows db db' j (Hrows j ltac:(done))). now rewrite Hf.
Qed.

(** A [save] that raises has written nothing: the exception is
    [DoesNotExist], the store is the one before the call, and the
    instance differs at most by the content model a first save sets.
    This is what happens, at every fuel, when the page's own parent
    pointer names no row. *)
Theorem save_failure_writes_nothing (fuel : nat) (self : Page) (db : DB) :
  (∀ e s, save fuel self db = Raised e s ->
          e = DoesNotExist ∧ s = (first_save_fields self, db)) ∧
  (∀ i, parent_id self = Some i -> rows db !! i = None ->
        save fuel self db = Raised DoesNotExist (first_save_fields self, db)).
Proof.
  split.
  - intros e s E.
    destruct (save_cases fuel self db) as [E'|[E'|[ts E']]];
      rewrite E' in E; try discriminate.
    now injection E as <- <-.
  - intros i Hi Hnone. unfold save, get_parent, fetch, save_with.
    now rewrite Hi, Hnone.
Qed.

(** Saving the instance that [save] has just returned gives the same
    instance and the same rows once more: on a page that is not among
    its own ancestors, [save] is idempotent. *)
Theorem save_idempotent (db : DB) (self : Page) (l : list Page) (fuel : nat) :
  Ancestry db (Some self) (self :: l) -> pk self ∉ pk <$> l ->
  (List.length l ≤ fuel)%nat ->
  ∃ self' db1 db2,
    save fuel self db = Returned tt (self', db1) ∧
    save fuel self' db1 = Returned tt (self', db2) ∧
    rows db2 = rows db1.
Proof.
  intros Ha Hni Hfuel.
  set (key := default (fresh (dom (rows db))) (pk self)).
  set (ts := join " / " (reverse (title <$> l) ++ [title self])%list).
  set (saved := with_titles (Some ts) (first_save_fields self)).
  set (self' := with_pk (Some key) saved).
  set (db1 := mkDB (<[key := self']> (rows db)) (writes db ++ [key])%list).
  assert (Hkey : Some key ∉ pk <$> l).
  { intros Hin. destruct (pk self) as [i|] eqn:Epk; [now apply Hni|].
    apply list_elem_of_fmap in Hin as (a & Hpa & Hin).
    destruct (Ancestry_loaded db self l a Ha Hin) as (j & Hj & [r Hr]).
    assert (j = key) as -> by congruence.
    apply (is_fresh (dom (rows db))). fold key.
    apply elem_of_dom. eauto. }
  assert (Ha1 : Ancestry db1 (Some self') (self' :: l)).
  { apply (Ancestry_frame db db1 key self l); [|done|done|].
    - intros j Hj. unfold db1. simpl. now rewrite lookup_insert_ne.
    - unfold self', saved. simpl. apply first_save_fields_parent_id. }
  inversion Ha as [|? next ? Hg Hl]; subst.
  inversion Ha1 as [|? next1 ? Hg1 Hl1]; subst.
  exists self', db1, (mkDB (<[key := self']> (rows db1)) (writes db1 ++ [key])%list).
  split; [|split].
  - unfold save. rewrite Hg, (save_with_spec _ _ _ _ _ Hl).
    destruct (decide _) as [_|]; [|done].
    unfold base_save. fold ts saved. simpl.
    rewrite first_save_fields_pk. reflexivity.
  - unfold save. rewrite Hg1, (save_with_spec _ _ _ _ _ Hl1).
    destruct (decide _) as [_|]; [|done].
    assert (title (first_save_fields self) = title self) as Ht.
    { unfold first_save_fields. now destruct (pk self). }
    unfold base_save, first_save_fields. simpl. rewrite Ht. reflexivity.
  - simpl. apply insert_insert_eq.
Qed.



(** A page with a parent and a slug whose single query returns no page at
    all: [pages[0]] raises [IndexError], and the instance is left without
    the [_ascendants] attribute. *)
Theorem get_ascendants_empty_query_raises
    (mgr : DB -> string -> option positive -> list PageObj)
    (db : DB) (self : PageObj) (for_user : option positive) (i : positive)
    (fuel : nat) :
  parent_id self = Some i -> ascendants_attr self = None ->
  truthy (slug self) = true -> mgr db (slug self) for_user = [] ->
  get_ascendants mgr fuel for_user self db = Raised IndexError self.
Proof.
  intros Hi Hattr Hs Hm. unfold get_ascendants.
  now rewrite Hi, Hattr, Hs, Hm.
Qed.

End SaveAgain.

(** ** URLs, menu helpers and menu templates *)

Section MenusAndUrls.
Import PyStr Pages.

Lemma lstrip_no_lead c s : startswith (lstrip c s) (String c "") = false.
Proof.
  unfold startswith. induction s as [|a s IH]; [reflexivity|].
  cbn [lstrip]. destruct (Ascii.eqb a c) eqn:E; [exact IH|].
  cbn [String.prefix]. destruct (ascii_dec c a) as [->|]; [|reflexivity].
  now rewrite Ascii.eqb_refl in E.
Qed.

Lemma lstrip_id c s :
  startswith s (String c "") = false -> lstrip c s = s.
Proof.
  unfold startswith. destruct s as [|a s]; [reflexivity|].
  cbn [lstrip String.prefix]. destruct (ascii_dec c a) as [->|Hne].
  - destruct s; discriminate.
  - intros _. destruct (Ascii.eqb a c) eqn:E; [|reflexivity].
    apply Ascii.eqb_eq in E. congruence.
Qed.

(** The URL of a link page is absolute: it is the slug itself when that
    starts with "http" in any letter case, and otherwise the slug with all
    its leading slashes replaced by a single one.  A link whose slug is
    already such a URL has that URL. *)
Theorem get_absolute_url_link (reverse_home : string)
    (reverse_page : string -> string) (self : Page) :
  content_model self = Some "link" ->
  let url := get_absolute_url reverse_home reverse_page self in
  ((startswith (lower (slug self)) "http" = true ∧ url = slug self) ∨
   (startswith (lower (slug self)) "http" = false ∧
    ∃ rest, url = "/" +:+ rest ∧ startswith rest "/" = false ∧
            rest = lstrip "/" (slug self))) ∧
  get_absolute_url reverse_home reverse_page (with_slug url self) = url.
Proof.
  intros Hlink url. subst url. unfold get_absolute_url.
  cbn [Pages.content_model Pages.slug with_slug].
  rewrite !bool_decide_eq_true_2 by done.
  destruct (startswith (lower (slug self)) "http") eqn:Hh; cbn [negb].
  - split; [left; done|]. now rewrite Hh.
  - split.
    + right. split; [done|]. eexists. split; [reflexivity|].
      split; [apply lstrip_no_lead|reflexivity].
    + change (lower ("/" +:+ lstrip "/" (slug self)))
        with (String "/" (lower (lstrip "/" (slug self)))).
      cbn [startswith String.prefix negb].
      change ("/" +:+ lstrip "/" (slug self))
        with (String "/" (lstrip "/" (slug self))).
      cbn [lstrip Ascii.eqb Bool.eqb].
      now rewrite (lstrip_id _ _ (lstrip_no_lead "/" (slug self))).
Qed.

Lemma replace_char_length a b s :
  String.length (replace_char a b s) = String.length s.
Proof. induction s as [|c s IH]; simpl; [reflexivity|now rewrite IH]. Qed.

(** The [html_id] that [set_helpers] assigns has the length of the slug
    and no ["/"] in it, and is the slug itself when the slug has none. *)
Theorem set_helpers_html_id (path_to_slug : string -> string) (self : Page)
    (context : Context) :
  let h := html_id (set_helpers path_to_slug self context) in
  String.length h = String.length (slug self) ∧
  has_char "/" h = false ∧
  (has_char "/" (slug self) = false -> h = slug self).
Proof.
  cbn [html_id set_helpers]. split; [apply replace_char_length|].
  split.
  - induction (slug self) as [|c s IH]; [reflexivity|].
    cbn [replace_char has_char]. rewrite IH.
    destruct (Ascii.eqb c "/") eqn:E; [reflexivity|]. now rewrite E.
  - induction (slug self) as [|c s IH]; [reflexivity|].
    cbn [replace_char has_char]. destruct (Ascii.eqb c "/"); [discriminate|].
    simpl. intros Hs. now rewrite IH.
Qed.

(** With no current page in the context (a URL that is no page's), the
    pages flagged as children of the current page and as its siblings are
    exactly the primary pages, and only a page that was never saved counts
    as current or ascendant. *)
Theorem set_helpers_without_current_page (path_to_slug : string -> string)
    (self : Page) (context : Context) :
  current_page context = None ->
  let h := set_helpers path_to_slug self context in
  is_current_child h = is_primary h ∧
  is_child h = is_primary h ∧
  is_current_sibling h = is_primary h ∧
  ∀ fuel, is_current_or_ascendant fuel self context
          = Some (bool_decide (pk self = None)).
Proof.
  intros Hnone. unfold set_helpers, is_current_or_ascendant.
  rewrite Hnone. cbn.
  split; [now apply bool_decide_ext|]. split; [now apply bool_decide_ext|].
  split; [now apply bool_decide_ext|].
  intros fuel. destruct (decide (pk self = None)) as [E|E]; destruct fuel; cbn.
  all: first [rewrite !bool_decide_eq_true_2 by done
             |rewrite !bool_decide_eq_false_2 by done]; reflexivity.
Qed.

(** [is_c_or_a] along a trail: fuel for the length of the trail is
    enough, and the answer is whether the page's id is the id asked about
    or lies further up the trail. *)
Lemma is_c_or_a_trail ids self_id page_id ks :
  Trail ids page_id ks ->
  ∀ fuel, (List.length ks ≤ S fuel)%nat ->
    is_c_or_a fuel ids self_id page_id
    = Some (bool_decide (self_id = page_id ∨ self_id ∈ Some <$> ks)).
Proof.
  induction 1 as [|i ks Ht IH]; intros fuel Hfuel.
  - destruct fuel; cbn; destruct (decide (self_id = None)) as [->|Hne].
    all: try (rewrite !bool_decide_eq_true_2 by auto; reflexivity).
    all: rewrite !bool_decide_eq_false_2; [reflexivity| |done].
    all: intros [?|Hin]; [done|]; now apply elem_of_nil in Hin.
  - assert (Hstep : ∀ f, is_c_or_a f ids self_id (Some i)
        = if bool_decide (self_id = Some i) then Some true
          else match mjoin (ids !! i) with
               | None => Some false
               | Some p => match f with
                           | O => None
                           | S f' => is_c_or_a f' ids self_id (Some p)
                           end
               end).
    { intros f. destruct f; reflexivity. }
    rewrite Hstep. destruct (decide (self_id = Some i)) as [->|Hne].
    { rewrite !bool_decide_eq_true_2 by auto. reflexivity. }
    rewrite (bool_decide_eq_false_2 (self_id = Some i)) by done.
    destruct (mjoin (ids !! i)) as [p|] eqn:Ep.
    + inversion Ht as [|p' ks' Ht']; subst. simpl in Hfuel.
      destruct fuel as [|fuel]; [lia|].
      rewrite IH by (simpl; lia). f_equal.
      apply bool_decide_ext. rewrite !fmap_cons, !elem_of_cons. tauto.
    + inversion Ht; subst. rewrite bool_decide_eq_false_2; [reflexivity|].
      rewrite fmap_cons, elem_of_cons. intros [?|[?|Hin]]; try done.
      now apply elem_of_nil in Hin.
Qed.

Lemma Path_Trail ids o ks : Path ids o ks -> Trail ids o ks.
Proof.
  induction 1 as [|i o ks Hi _ IH]; constructor. now rewrite Hi.
Qed.

(** The closure [is_current_or_ascendant] answers whether the page is the
    current page or one of the pages above it in the dictionary of parent
    ids; it needs a recursion depth of at most the number of those
    pages. *)
Theorem is_current_or_ascendant_trail (self : Page) (context : Context)
    (ks : list positive) (fuel : nat) :
  Trail (parent_page_ids context) (current_page context ≫= pk) ks ->
  (List.length ks ≤ S fuel)%nat ->
  is_current_or_ascendant fuel self context
  = Some (bool_decide (pk self = current_page context ≫= pk ∨
                       pk self ∈ Some <$> ks)).
Proof. intros Ht Hfuel. now apply is_c_or_a_trail. Qed.

(** In a dictionary of parent ids that is a forest, a page flagged as a
    child of the current page is never flagged as current or ascendant. *)
Theorem current_child_is_not_ascendant (path_to_slug : string -> string)
    (self c : Page) (context : Context) (si ci : positive) :
  Forest (parent_page_ids context) ->
  current_page context = Some c -> pk c = Some ci -> pk self = Some si ->
  parent_page_ids context !! si = Some (parent_id self) ->
  is_current_child (set_helpers path_to_slug self context) = true ->
  ∃ N, ∀ fuel, (N ≤ fuel)%nat ->
    is_current_or_ascendant fuel self context = Some false.
Proof.
  intros HF Hc Hci Hsi Hdict Hchild.
  unfold set_helpers in Hchild. cbn in Hchild. rewrite Hc in Hchild.
  cbn in Hchild. apply bool_decide_eq_true in Hchild.
  rewrite Hci in Hchild. rewrite Hchild in Hdict.
  destruct (HF _ _ Hdict) as [ks Hks].
  pose proof (Path_no_self _ _ _ _ Hdict Hks) as Hno.
  exists (List.length ks). intros fuel Hfuel.
  unfold is_current_or_ascendant. rewrite Hc. cbn. rewrite Hci, Hsi.
  rewrite (is_c_or_a_trail _ _ _ ks (Path_Trail _ _ _ Hks)) by lia.
  f_equal. apply bool_decide_eq_false_2.
  inversion Hks as [|i o ks' Hi Hks']; subst.
  intros [[= ->]|Hin].
  - apply Hno. now left.
  - apply list_elem_of_fmap in Hin as (j & [= ->] & Hj). now apply Hno.
Qed.

Lemma in_menu_loop_false menus chosen name :
  in_menu_loop menus chosen name = false <->
  ∃ i l, (i, l, name) ∈ menus ∧ pretty i ∉ chosen.
Proof.
  induction menus as [|[[i l] t] menus IH]; cbn [in_menu_loop].
  - split; [discriminate|]. intros (i & l & Hin & _).
    now apply elem_of_nil in Hin.
  - destruct (decide (pretty i ∈ chosen)) as [Hin|Hout].
    + rewrite (bool_decide_eq_true_2 _ Hin). cbn [negb andb]. rewrite IH.
      split; intros (i' & l' & Hm & Hc).
      * exists i', l'. split; [now right|done].
      * apply elem_of_cons in Hm as [[= -> -> ->]|Hm]; [done|eauto].
    + rewrite (bool_decide_eq_false_2 _ Hout). cbn [negb andb].
      destruct (decide (t = name)) as [->|Hne].
      * rewrite bool_decide_eq_true_2 by done. split; [|done].
        intros _. exists i, l. split; [now left|done].
      * rewrite bool_decide_eq_false_2 by done. rewrite IH.
        split; intros (i' & l' & Hm & Hc).
        { exists i', l'. split; [now right|done]. }
        { apply elem_of_cons in Hm as [[= -> -> ->]|Hm]; [done|eauto]. }
Qed.

(** A page is kept out of a menu template exactly when its [in_menus] is
    set and some configured menu that uses the template has its id missing
    there.  So a page whose [in_menus] is [None] is in every menu, and a
    template that no configured menu uses shows every page. *)
Theorem in_menu_template_false (menus : list (Z * string * string))
    (in_menus : option (list string)) (name : string) :
  in_menu_template menus in_menus name = false <->
  ∃ chosen i l, in_menus = Some chosen ∧ (i, l, name) ∈ menus ∧
                pretty i ∉ chosen.
Proof.
  destruct in_menus as [chosen|]; cbn [in_menu_template].
  - rewrite in_menu_loop_false. split.
    + intros (i & l & ?). exists chosen, i, l. tauto.
    + intros (c & i & l & [= <-] & ?). eauto.
  - split; [discriminate|]. now intros (c & i & l & ? & _).
Qed.

(** Choosing more menus for a page never takes it out of a menu
    template. *)
Theorem in_menu_template_monotone (menus : list (Z * string * string))
    (chosen chosen' : list string) (name : string) :
  chosen ⊆ chosen' ->
  in_menu_template menus (Some chosen) name = true ->
  in_menu_template menus (Some chosen') name = true.
Proof.
  intros Hsub Hin. apply not_false_iff_true. intros Hf.
  apply in_menu_template_false in Hf as (c & i & l & [= <-] & Hm & Hout).
  apply not_false_iff_true in Hin. apply Hin.
  apply in_menu_template_false. exists chosen, i, l.
  split; [done|]. split; [done|]. intros Hc. apply Hout, Hsub, Hc.
Qed.

End MenusAndUrls.

(** ** Notifying nobody *)

Section ModerationMore.
Import PyStr Moderation.

(** When no user is in a group named "Publisher", [send_pending_email]
    still calls [send_mail] once, with an empty list of recipients, and
    returns no user. *)
Theorem send_pending_email_no_publishers
    (admin_url_for : string -> string -> option positive -> string)
    (env : Env) (self : Moderated) (outbox : list Mail) :
  (∀ u, u ∈ users env -> ¬ in_group_named env "Publisher" u) ->
  ∃ mail,
    send_pending_email admin_url_for env self outbox
    = ([], (outbox ++ [mail])%list) ∧
    recipient_list mail = [].
Proof.
  intros Hnone.
  assert (Hall : ∀ us, us ⊆ users env ->
                       filter_groups_name env "Publisher" us = []).
  { intros us Hsub. unfold filter_groups_name.
    induction us as [|u us IH]; [reflexivity|].
    rewrite filter_cons. destruct (decide _) as [Hp|_].
    - exfalso. apply (Hnone u); [apply Hsub; now left|done].
    - apply IH. intros x Hx. apply Hsub. now right. }
  unfold send_pending_email. cbv zeta.
  rewrite (Hall (users env)) by done.
  assert (match owning_group self with
          | Some g =>
              filter_groups_name env "Publisher" (filter_groups g (users env))
          | None => []
          end = []) as ->.
  { destruct (owning_group self) as [g|]; [|reflexivity].
    apply Hall. unfold filter_groups. intros x Hx.
    now apply list_elem_of_filter in Hx as [_ Hx]. }
  eexists. split; reflexivity.
Qed.

End ModerationMore.

(** ** The further properties on the sample site *)

Section MoreInstances.
Import PyStr Moderation Pages.

Local Abbreviation set_slug_s :=
  (set_slug Sample.reverse_page Sample.resolve Sample.page_view).
Local Abbreviation set_parent_s :=
  (set_parent Sample.reverse_page Sample.resolve Sample.page_view).
Local Abbreviation overridden_s :=
  (overridden Sample.reverse_page Sample.resolve Sample.page_view).

Lemma sample_attached_home : attached Sample.db (Some Sample.home).
Proof. apply attachedb_sound. vm_compute. reflexivity. Qed.

Lemma sample_home_ancestry :
  Ancestry Sample.db (Some Sample.home) [Sample.home].
Proof. repeat (econstructor; [reflexivity|]). constructor. Qed.


Lemma sample_blog_not_above_home :
  pk Sample.blog ∉ pk <$> [Sample.home].
Proof. intros H. apply list_elem_of_singleton in H. discriminate. Qed.


Lemma sample_promo_forest : forest Sample.promo_db.
Proof. apply forestb_sound. vm_compute. reflexivity. Qed.

(** Home cannot be made its own parent. *)
Lemma set_parent_same_key_raises_witness :
  parent_stored Sample.db Sample.home ∧ pk Sample.home = pk Sample.home ∧
  set_parent_s 0 (Some Sample.home) Sample.home Sample.db
  = Raised AttributeError (Sample.home, Sample.db).
Proof.
  split; [exact I|]. split; [reflexivity|].
  apply (set_parent_same_key_raises Sample.reverse_page Sample.resolve
           Sample.page_view Sample.db Sample.home Sample.home 0 I eq_refl).
Defined.

(** Blog, a root page, moved under Home. *)
Lemma set_parent_root_page_slug_witness :
  forest Sample.db ∧ attached Sample.db (Some Sample.home) ∧
  get_parent Sample.db Sample.blog = Val None ∧
  ∃ N, ∀ fuel, (N ≤ fuel)%nat ->
    ∃ self' db',
      set_parent_s fuel (Some Sample.home) Sample.blog Sample.db
      = Returned tt (self', db') ∧
      slug self' = "home/blog".
Proof.
  split; [exact sample_forest|]. split; [exact sample_attached_home|].
  split; [reflexivity|].
  destruct (set_parent_root_page_slug Sample.reverse_page Sample.resolve
              Sample.page_view Sample.db Sample.blog (Some Sample.home) None
              [Sample.home] sample_forest sample_attached_home eq_refl eq_refl
              eq_refl sample_home_ancestry sample_blog_not_above_home)
    as [N HN].
  exists N. intros fuel Hfuel.
  destruct (HN fuel Hfuel) as (self' & db' & E & Hs & _).
  exists self', db'. split; [exact E|exact Hs].
Defined.


(** Landing has no slug: moving it writes its row and nothing else. *)
Lemma set_parent_keeps_slug_witness :
  forest Sample.promo_db ∧ attached Sample.promo_db None ∧
  get_parent Sample.promo_db Sample.landing = Val None ∧
  truthy (slug Sample.landing) = false ∧
  ∃ N, ∀ fuel, (N ≤ fuel)%nat ->
    ∃ self' db' key,
      set_parent_s fuel None Sample.landing Sample.promo_db
      = Returned tt (self', db') ∧
      slug self' = slug Sample.landing ∧
      rows db' = <[key := self']> (rows Sample.promo_db).
Proof.
  split; [exact sample_promo_forest|]. split; [exact I|].
  split; [reflexivity|]. split; [reflexivity|].
  destruct (set_parent_keeps_slug Sample.reverse_page Sample.resolve
              Sample.page_view Sample.promo_db Sample.landing None None []
              sample_promo_forest I eq_refl (or_introl eq_refl)
              (Ancestry_none Sample.promo_db)) as [N HN].
  { intros H. now apply elem_of_nil in H. }
  exists N. intros fuel Hfuel.
  destruct (HN fuel Hfuel) as (self' & db' & key & E & Hs & _ & _ & Hr & _).
  exists self', db', key. split; [exact E|]. split; [exact Hs|exact Hr].
Defined.

(** Blog has a URL pattern of its own: renaming it leaves its row alone. *)
Lemma set_slug_overridden_page_witness :
  forest Sample.db ∧ pk Sample.blog = Some 4%positive ∧
  rows Sample.db !! 4%positive = Some Sample.blog ∧
  overridden_s Sample.blog = true ∧
  ∃ N, ∀ fuel, (N ≤ fuel)%nat ->
    ∃ db',
      set_slug_s fuel "news" Sample.blog Sample.db
      = Returned tt (with_slug "news" Sample.blog, db') ∧
      rows db' !! 4%positive = Some Sample.blog.
Proof.
  assert (Ho : overridden_s Sample.blog = true) by (vm_compute; reflexivity).
  split; [exact sample_forest|]. split; [reflexivity|].
  split; [reflexivity|]. split; [exact Ho|].
  apply (set_slug_overridden_page Sample.reverse_page Sample.resolve
           Sample.page_view Sample.db Sample.blog "news" 4%positive Sample.blog
           sample_forest eq_refl eq_refl eq_refl Ho).
Defined.

Lemma set_slug_same_slug_witness :
  forest Sample.db ∧
  ∃ N, ∀ fuel, (N ≤ fuel)%nat ->
    ∃ db',
      set_slug_s fuel (slug Sample.about) Sample.about Sample.db
      = Returned tt (Sample.about, db') ∧
      ∃ r', rows db' !! 3%positive = Some r' ∧ slug r' = slug Sample.team.
Proof.
  split; [exact sample_forest|].
  destruct (set_slug_same_slug Sample.reverse_page Sample.resolve
              Sample.page_view Sample.db Sample.about sample_forest)
    as [N HN].
  exists N. intros fuel Hfuel. destruct (HN fuel Hfuel) as (db' & E & Hrows).
  destruct (Hrows 3%positive Sample.team eq_refl) as (r' & Hr' & Hs & _).
  exists db'. split; [exact E|]. exists r'. split; [exact Hr'|exact Hs].
Defined.

(** Orphan points at a row that is not there. *)
Lemma save_failure_writes_nothing_witness :
  parent_id Sample.orphan = Some 40%positive ∧
  rows Sample.db !! 40%positive = None ∧
  save 3 Sample.orphan Sample.db
  = Raised DoesNotExist (first_save_fields Sample.orphan, Sample.db).
Proof.
  split; [reflexivity|]. split; [reflexivity|].
  apply (proj2 (save_failure_writes_nothing 3 Sample.orphan Sample.db)
           40%positive eq_refl eq_refl).
Defined.

(** Saving Contact twice. *)
Lemma save_idempotent_witness :
  Ancestry Sample.db (Some Sample.contact)
    [Sample.contact; Sample.about; Sample.home] ∧
  (pk Sample.contact ∉ pk <$> [Sample.about; Sample.home]) ∧
  (2 ≤ 2)%nat ∧
  ∃ self' db1 db2,
    save 2 Sample.contact Sample.db = Returned tt (self', db1) ∧
    save 2 self' db1 = Returned tt (self', db2) ∧
    rows db2 = rows db1.
Proof.
  assert (Hni : pk Sample.contact ∉ pk <$> [Sample.about; Sample.home]).
  { intros H. repeat (apply elem_of_cons in H as [H|H]; [discriminate|]).
    now apply elem_of_nil in H. }
  split; [exact sample_ancestry|]. split; [exact Hni|]. split; [lia|].
  apply (save_idempotent Sample.db Sample.contact [Sample.about; Sample.home]
           2 sample_ancestry Hni).
  simpl. lia.
Defined.


Lemma get_ascendants_empty_query_raises_witness :
  parent_id (mkObj Sample.about None) = Some 1%positive ∧
  truthy (slug (mkObj Sample.about None)) = true ∧
  get_ascendants Sample.empty_query 5 None (mkObj Sample.about None) Sample.db
  = Raised IndexError (mkObj Sample.about None).
Proof.
  split; [reflexivity|]. split; [reflexivity|].
  apply (get_ascendants_empty_query_raises Sample.empty_query Sample.db
           (mkObj Sample.about None) None 1%positive 5 eq_refl eq_refl eq_refl
           eq_refl).
Defined.

(** The wiki link gets one leading slash. *)
Lemma get_absolute_url_link_witness :
  content_model Sample.wiki_link = Some "link" ∧
  get_absolute_url "/" Sample.reverse_page Sample.wiki_link = "/wiki/start" ∧
  get_absolute_url "/" Sample.reverse_page
    (with_slug "/wiki/start" Sample.wiki_link)
  = "/wiki/start".
Proof.
  split; [reflexivity|]. split; [reflexivity|].
  apply (proj2 (get_absolute_url_link "/" Sample.reverse_page Sample.wiki_link
                  eq_refl)).
Defined.

Lemma set_helpers_html_id_witness :
  String.length (html_id (set_helpers Sample.path_to_slug Sample.team
                            Sample.about_context))
  = String.length (slug Sample.team) ∧
  has_char "/" (html_id (set_helpers Sample.path_to_slug Sample.team
                           Sample.about_context)) = false.
Proof.
  destruct (set_helpers_html_id Sample.path_to_slug Sample.team
              Sample.about_context) as (Hl & Hc & _).
  split; [exact Hl|exact Hc].
Defined.

(** On the search page Home and Blog, the primary pages, are flagged as
    children of the current page. *)
Lemma set_helpers_without_current_page_witness :
  current_page Sample.no_page_context = None ∧
  is_current_child (set_helpers Sample.path_to_slug Sample.blog
                      Sample.no_page_context) = true ∧
  is_current_or_ascendant 0 Sample.blog Sample.no_page_context = Some false.
Proof.
  split; [reflexivity|].
  destruct (set_helpers_without_current_page Sample.path_to_slug Sample.blog
              Sample.no_page_context eq_refl) as (Hc & _ & _ & Ha).
  split; [exact Hc|exact (Ha 0%nat)].
Defined.

Lemma sample_team_trail :
  Trail (parent_page_ids Sample.team_context)
    (current_page Sample.team_context ≫= pk)
    [3%positive; 2%positive; 1%positive].
Proof. repeat constructor. Qed.

(** While Team is shown, Home is an ascendant of the current page. *)
Lemma is_current_or_ascendant_trail_witness :
  Trail (parent_page_ids Sample.team_context)
    (current_page Sample.team_context ≫= pk)
    [3%positive; 2%positive; 1%positive] ∧
  (3 ≤ 3)%nat ∧
  is_current_or_ascendant 2 Sample.home Sample.team_context = Some true.
Proof.
  split; [exact sample_team_trail|]. split; [lia|].
  rewrite (is_current_or_ascendant_trail Sample.home Sample.team_context
             [3%positive; 2%positive; 1%positive] 2 sample_team_trail);
    [reflexivity|simpl; lia].
Defined.

(** While About is shown, Team is its child and not an ascendant. *)
Lemma current_child_is_not_ascendant_witness :
  Forest (parent_page_ids Sample.about_context) ∧
  is_current_child (set_helpers Sample.path_to_slug Sample.team
                      Sample.about_context) = true ∧
  ∃ N, ∀ fuel, (N ≤ fuel)%nat ->
    is_current_or_ascendant fuel Sample.team Sample.about_context
    = Some false.
Proof.
  split; [exact sample_forest|]. split; [reflexivity|].
  apply (current_child_is_not_ascendant Sample.path_to_slug Sample.team
           Sample.about Sample.about_context 3%positive 2%positive
           sample_forest eq_refl eq_refl eq_refl eq_refl eq_refl).
Defined.

(** A page in the top bar and the footer is not in the tree menu. *)
Lemma in_menu_template_false_witness :
  in_menu_template Sample.menu_templates (Some ["1"; "3"])
    "pages/menus/tree.html" = false.
Proof.
  apply (proj2 (in_menu_template_false Sample.menu_templates
                  (Some ["1"; "3"]) "pages/menus/tree.html")).
  exists ["1"; "3"], 2%Z, "Left-hand tree".
  split; [reflexivity|]. split; [right; left|].
  intros H. repeat (apply elem_of_cons in H as [H|H]; [discriminate|]).
  now apply elem_of_nil in H.
Defined.

Lemma in_menu_template_monotone_witness :
  ["1"] ⊆ ["1"; "3"] ∧
  in_menu_template Sample.menu_templates (Some ["1"])
    "pages/menus/dropdown.html" = true ∧
  in_menu_template Sample.menu_templates (Some ["1"; "3"])
    "pages/menus/dropdown.html" = true.
Proof.
  assert (Hsub : ["1"] ⊆ ["1"; "3"]).
  { intros x Hx. apply list_elem_of_singleton in Hx as ->. now left. }
  split; [exact Hsub|]. split; [reflexivity|].
  apply (in_menu_template_monotone Sample.menu_templates ["1"] ["1"; "3"]
           "pages/menus/dropdown.html" Hsub eq_refl).
Defined.

Lemma send_pending_email_no_publishers_witness :
  (∀ u, u ∈ users Sample.authors_only ->
        ¬ in_group_named Sample.authors_only "Publisher" u) ∧
  ∃ mail,
    send_pending_email Sample.admin_url_for Sample.authors_only
      Sample.draft_item []
    = ([], [mail]) ∧
    recipient_list mail = [].
Proof.
  assert (Hnone : ∀ u, u ∈ users Sample.authors_only ->
                       ¬ in_group_named Sample.authors_only "Publisher" u).
  { intros u Hu. apply list_elem_of_singleton in Hu as ->.
    apply (bool_decide_eq_false_1
             (in_group_named Sample.authors_only "Publisher" Sample.cat)).
    vm_compute. reflexivity. }
  split; [exact Hnone|].
  apply (send_pending_email_no_publishers Sample.admin_url_for
           Sample.authors_only Sample.draft_item [] Hnone).
Defined.

End MoreInstances.
